(** * flashanimedit: the frame timeline of [src/App.js]

    A shallow embedding of the React component [App]: its state cells, its
    event handlers, its three effects and the export routine, followed by the
    properties of the frame store, of playback and of export.

    Conventions.
    - Indices and coordinates are JavaScript numbers holding integers far
      below 2^53, where the arithmetic of the source is exact; they are [Z].
    - Client coordinates and the bounding rectangle are doubles: binary64
      floating-point numbers ([float]) with their rounded subtraction;
      [Math.floor] of the difference is an integer, a [Z].
    - The browser's 2D canvas is an interface ([Canvas2D]): the pixel buffer
      type, the cleared buffer and the line rasteriser are its members.
    - An event handled by [dispatch] meets the latest render, so the
      values its handler reads from its closure are those of the state it
      updates. Pointer-moves that arrive before React renders again all
      run the handler of the same render: that is [dispatchMoves]. *)

From Stdlib Require Import ZArith Lia Bool PrimFloat FloatOps SpecFloat.
From stdpp Require Import base list strings pretty.

Local Open Scope Z_scope.

(** ** Constants *)

Definition CANVAS_WIDTH : Z := 520.
Definition CANVAS_HEIGHT : Z := 390.
Definition FRAME_MS : Z := 100.

(** ** JavaScript arrays *)

Module JsArray.

(** The relative-index rule shared by [slice] and [splice]: a negative
    index counts from the end, and the result is clamped to [0, len]. *)
Definition relIndex (len : nat) (k : Z) : nat :=
  if k <? 0 then Z.to_nat (Z.max (Z.of_nat len + k) 0)
  else Z.to_nat (Z.min k (Z.of_nat len)).

(** [a.slice(start, end)] *)
Definition slice {A} (start stop : Z) (a : list A) : list A :=
  let k := relIndex (length a) start in
  let e := relIndex (length a) stop in
  take (e - k)%nat (drop k a).

(** [a.slice(start)] *)
Definition sliceFrom {A} (start : Z) (a : list A) : list A :=
  drop (relIndex (length a) start) a.

(** [a.splice(start, deleteCount)], as the array it leaves behind. *)
Definition splice {A} (start deleteCount : Z) (a : list A) : list A :=
  let k := relIndex (length a) start in
  let d := Z.to_nat (Z.min (Z.max deleteCount 0) (Z.of_nat (length a - k))) in
  take k a ++ drop (k + d)%nat a.

(** [a[k]]: [None] stands for [undefined]. *)
Definition index {A} (a : list A) (k : Z) : option A :=
  if k <? 0 then None else a !! Z.to_nat k.

(** [(a + 1) % n] and the like: the remainder has the sign of the
    dividend. For [n = 0] JavaScript yields NaN; the divisor here is the
    length of the frame array, which is never 0. *)
Definition rem (a n : Z) : Z := Z.rem a n.

End JsArray.

(** ** JavaScript numbers *)

Module JsNumber.

(** [Math.floor(x)] for a double [x] whose floor is an integer: the
    value [±m·2^e] shifted to its integer part, rounding down. For NaN
    and the infinities JavaScript returns [x] itself, which is no
    integer; the arguments here are differences of client coordinates
    and layout positions, which are finite, and the model gives 0. *)
Definition Math_floor (x : float) : Z :=
  match Prim2SF x with
  | S754_finite sign m e => Z.shiftl (if sign then Z.neg m else Z.pos m) e
  | _ => 0
  end.

End JsNumber.

(** ** The 2D canvas interface *)

Class Canvas2D := {
  (** the 520x390 RGBA buffer that [getImageData(0, 0, W, H)] returns *)
  ImageData : Type;
  (** the buffer after [clearRect(0, 0, W, H)] *)
  transparentBlack : ImageData;
  (** [beginPath(); moveTo(from); lineTo(to); stroke()] with the given
      stroke style and line width; the canvas clips what falls outside. *)
  strokeLine : string → Z → Z * Z → Z * Z → ImageData → ImageData;
}.

Section Model.
Context `{Canvas2D}.

(** A frame is an [ImageData] or [null]. *)
Definition Frame : Type := option ImageData.

Definition getEmptyFrame : Frame := None.

(** The rendering context of the drawing canvas. *)
Record Context2D := mkContext2D {
  pixels : ImageData;
  strokeStyle : string;
  lineWidth : Z;
}.

Definition clearRect (c : Context2D) : Context2D :=
  mkContext2D transparentBlack (strokeStyle c) (lineWidth c).

Definition putImageData (img : ImageData) (c : Context2D) : Context2D :=
  mkContext2D img (strokeStyle c) (lineWidth c).

Definition getImageData (c : Context2D) : ImageData := pixels c.

Definition cloneImageData (c : Context2D) : ImageData := getImageData c.

Definition setStrokeStyle (v : string) (c : Context2D) : Context2D :=
  mkContext2D (pixels c) v (lineWidth c).

Definition setLineWidth (w : Z) (c : Context2D) : Context2D :=
  mkContext2D (pixels c) (strokeStyle c) w.

Definition stroke (from to : Z * Z) (c : Context2D) : Context2D :=
  mkContext2D (strokeLine (strokeStyle c) (lineWidth c) from to (pixels c))
              (strokeStyle c) (lineWidth c).

(** The state cells of [App], the canvas behind [canvasRef] and the
    interval of the playback effect. [framesRef] is the identity of the
    array held by the [frames] cell: effects compare dependencies by
    identity, and every [setFrames] of the source installs a new array.
    [timer] is [Some n] while an interval is registered, [n] being the
    [frames.length] its callback captured. *)
Record State := mkState {
  tool : string;
  color : string;
  frames : list Frame;
  framesRef : nat;
  currentFrame : Z;
  playing : bool;
  drawing : bool;
  lastPt : Z * Z;
  dirty : bool;
  ctx : Context2D;
  timer : option Z;
}.

Definition setTool (v : string) (s : State) : State :=
  mkState v (color s) (frames s) (framesRef s) (currentFrame s) (playing s)
          (drawing s) (lastPt s) (dirty s) (ctx s) (timer s).

Definition setColor (v : string) (s : State) : State :=
  mkState (tool s) v (frames s) (framesRef s) (currentFrame s) (playing s)
          (drawing s) (lastPt s) (dirty s) (ctx s) (timer s).

Definition setFrames (f : list Frame → list Frame) (s : State) : State :=
  mkState (tool s) (color s) (f (frames s)) (S (framesRef s)) (currentFrame s)
          (playing s) (drawing s) (lastPt s) (dirty s) (ctx s) (timer s).

Definition setCurrentFrame (f : Z → Z) (s : State) : State :=
  mkState (tool s) (color s) (frames s) (framesRef s) (f (currentFrame s))
          (playing s) (drawing s) (lastPt s) (dirty s) (ctx s) (timer s).

Definition setPlaying (f : bool → bool) (s : State) : State :=
  mkState (tool s) (color s) (frames s) (framesRef s) (currentFrame s)
          (f (playing s)) (drawing s) (lastPt s) (dirty s) (ctx s) (timer s).

Definition setDrawing (v : bool) (s : State) : State :=
  mkState (tool s) (color s) (frames s) (framesRef s) (currentFrame s)
          (playing s) v (lastPt s) (dirty s) (ctx s) (timer s).

Definition setLastPt (v : Z * Z) (s : State) : State :=
  mkState (tool s) (color s) (frames s) (framesRef s) (currentFrame s)
          (playing s) (drawing s) v (dirty s) (ctx s) (timer s).

Definition setDirty (v : bool) (s : State) : State :=
  mkState (tool s) (color s) (frames s) (framesRef s) (currentFrame s)
          (playing s) (drawing s) (lastPt s) v (ctx s) (timer s).

Definition withCtx (f : Context2D → Context2D) (s : State) : State :=
  mkState (tool s) (color s) (frames s) (framesRef s) (currentFrame s)
          (playing s) (drawing s) (lastPt s) (dirty s) (f (ctx s)) (timer s).

Definition withTimer (v : option Z) (s : State) : State :=
  mkState (tool s) (color s) (frames s) (framesRef s) (currentFrame s)
          (playing s) (drawing s) (lastPt s) (dirty s) (ctx s) v.

(** The state of the first render: [useState] initial values, a fresh
    canvas and no interval. *)
Definition initialState : State :=
  mkState "brush" "#222222" [None] 0%nat 0 false false (0, 0) false
          (mkContext2D transparentBlack "#000000" 1) None.

(** ** The frame store seen through the spec's vocabulary *)

(** [frames[i]] *)
Definition read (s : State) (i : Z) : option Frame :=
  JsArray.index (frames s) i.

(** [frames.map((f, i) => (i === currentFrame ? img : f))], the updater
    of both the save effect and [copyFrame]. *)
Definition commitAt (cur : Z) (img : ImageData) (f : list Frame) : list Frame :=
  imap (λ i x, if Z.of_nat i =? cur then Some img else x) f.

(** What the canvas shows once a frame slot has been loaded into it. *)
Definition shown (slot : option Frame) : ImageData :=
  match slot with
  | Some (Some img) => img
  | _ => transparentBlack
  end.

(** ** Pointer input *)

Record PointerEvent := mkPointerEvent { clientX : float; clientY : float }.

(** [canvasRef.current.getBoundingClientRect()] *)
Record DOMRect := mkDOMRect { rectLeft : float; rectTop : float }.

Definition localX (rect : DOMRect) (e : PointerEvent) : Z :=
  JsNumber.Math_floor (clientX e - rectLeft rect)%float.

Definition localY (rect : DOMRect) (e : PointerEvent) : Z :=
  JsNumber.Math_floor (clientY e - rectTop rect)%float.

Definition handlePointerDown (rect : DOMRect) (e : PointerEvent) (s : State) : State :=
  if negb (String.eqb (tool s) "brush") then s
  else
    let x := localX rect e in
    let y := localY rect e in
    setLastPt (x, y) (setDrawing true s).

Definition handlePointerMove (rect : DOMRect) (e : PointerEvent) (s : State) : State :=
  if negb (drawing s) || negb (String.eqb (tool s) "brush") then s
  else
    let x := localX rect e in
    let y := localY rect e in
    let draw c := stroke (lastPt s) (x, y) (setLineWidth 2 (setStrokeStyle (color s) c)) in
    setDirty true (setLastPt (x, y) (withCtx draw s)).

Definition handlePointerUp (s : State) : State := setDrawing false s.

(** ** Frame operations *)

Definition addFrame (s : State) : State :=
  let cur := currentFrame s in
  setCurrentFrame (λ c, c + 1)
    (setFrames (λ f, JsArray.slice 0 (cur + 1) f
                      ++ [getEmptyFrame]
                      ++ JsArray.sliceFrom (cur + 1) f) s).

Definition deleteFrame (s : State) : State :=
  if Z.of_nat (length (frames s)) <? 2 then s
  else
    let cur := currentFrame s in
    setCurrentFrame (λ f, if 0 <? f then f - 1 else 0)
      (setFrames (λ f, JsArray.splice cur 1 f) s).

Definition copyFrame (s : State) : State :=
  let cur := getImageData (ctx s) in
  setDirty false (setFrames (commitAt (currentFrame s) cur) s).

(** The timeline thumbnail [i]: [onClick={() => setCurrentFrame(i)}]. *)
Definition selectFrame (i : nat) (s : State) : State :=
  setCurrentFrame (λ _, Z.of_nat i) s.

(** The play button: [setPlaying(p => !p)]. *)
Definition togglePlaying (s : State) : State := setPlaying negb s.

(** The interval callback, [setCurrentFrame(prev => (prev + 1) % n)];
    without a registered interval no callback runs. *)
Definition timerTick (s : State) : State :=
  match timer s with
  | Some n => setCurrentFrame (λ prev, JsArray.rem (prev + 1) n) s
  | None => s
  end.

(** ** Effects

    An effect runs after a render when one of its dependencies differs
    from the previous render. It reads the cells of the render it belongs
    to ([r]); what it does to the canvas and the interval happens at once,
    and its state updates are applied to the running state ([w]). *)

(** Load current frame into canvas; dependencies [currentFrame, frames]. *)
Definition loadEffect (r w : State) : State :=
  let cleared := withCtx clearRect w in
  match JsArray.index (frames r) (currentFrame r) with
  | Some (Some img) => withCtx (putImageData img) cleared
  | _ => cleared
  end.

(** Save frame on new drawing; dependency [dirty]. *)
Definition saveEffect (r w : State) : State :=
  if negb (dirty r) then w
  else
    let img := getImageData (ctx w) in
    setDirty false (setFrames (commitAt (currentFrame r) img) w).

(** Timeline playback; dependencies [playing, frames.length]. The cleanup
    of the previous run clears its interval. *)
Definition playbackCleanup (w : State) : State := withTimer None w.

Definition playbackEffect (r w : State) : State :=
  if negb (playing r) then w
  else withTimer (Some (Z.of_nat (length (frames r)))) w.

Definition loadDepsChanged (p r : State) : bool :=
  negb (currentFrame p =? currentFrame r) || negb (framesRef p =? framesRef r)%nat.

Definition saveDepsChanged (p r : State) : bool :=
  negb (eqb (dirty p) (dirty r)).

Definition playbackDepsChanged (p r : State) : bool :=
  negb (eqb (playing p) (playing r))
  || negb (length (frames p) =? length (frames r))%nat.

(** The effects of one render [r] that follows the render [p]: cleanups
    first, then the effect bodies in their order of declaration. *)
Definition runEffects (p r : State) : State :=
  let w0 := if playbackDepsChanged p r then playbackCleanup r else r in
  let w1 := if loadDepsChanged p r then loadEffect r w0 else w0 in
  let w2 := if saveDepsChanged p r then saveEffect r w1 else w1 in
  if playbackDepsChanged p r then playbackEffect r w2 else w2.

(** Whether the effects updated a state cell, which asks for a further
    render. The effects of [App] only call [setFrames] and [setDirty]. *)
Definition cellsUpdated (r w : State) : bool :=
  negb (framesRef r =? framesRef w)%nat || negb (eqb (dirty r) (dirty w)).

(** Render, run the effects, and render again while they update cells. *)
Fixpoint settle (fuel : nat) (p r : State) : State :=
  match fuel with
  | O => r
  | S n =>
      let w := runEffects p r in
      if cellsUpdated r w then settle n r w else w
  end.

(** Two rounds always suffice (lemma [settle_enough_fuel]). *)
Definition renderRounds : nat := 2.

(** One event: its handler, then the renders and effects it causes. *)
Definition dispatch (handler : State → State) (s : State) : State :=
  settle renderRounds s (handler s).

(** ** Events

    The events the page can deliver. A thumbnail exists only for an index
    of the array and the interval callback only while an interval is
    registered; elsewhere these two cannot occur and leave the state
    alone. Pointer-leave shares the handler of pointer-up. *)
Inductive Event :=
| PointerDown (rect : DOMRect) (e : PointerEvent)
| PointerMove (rect : DOMRect) (e : PointerEvent)
| PointerUp
| PointerLeave
| ClickBrush
| PickColor (v : string)
| ClickSaveFrame
| ClickAddFrame
| ClickDeleteFrame
| ClickThumbnail (i : nat)
| ClickPlayPause
| IntervalTick.

Definition react (s : State) (ev : Event) : State :=
  match ev with
  | PointerDown rect e => dispatch (handlePointerDown rect e) s
  | PointerMove rect e => dispatch (handlePointerMove rect e) s
  | PointerUp | PointerLeave => dispatch handlePointerUp s
  | ClickBrush => dispatch (setTool "brush") s
  | PickColor v => dispatch (setColor v) s
  | ClickSaveFrame => dispatch copyFrame s
  | ClickAddFrame => dispatch addFrame s
  | ClickDeleteFrame => dispatch deleteFrame s
  | ClickThumbnail i =>
      if (i <? length (frames s))%nat then dispatch (selectFrame i) s else s
  | ClickPlayPause => dispatch togglePlaying s
  | IntervalTick => dispatch timerTick s
  end.

(** A sequence of events, each followed by its renders before the next
    is handled. *)
Definition run (s : State) (evs : list Event) : State := foldl react s evs.

(** The two structural operations of the frame store. *)
Inductive StoreOp := InsertAfter | Delete.

Definition storeOpEvent (op : StoreOp) : Event :=
  match op with
  | InsertAfter => ClickAddFrame
  | Delete => ClickDeleteFrame
  end.

(** ** Export *)

(** A PNG image: its dimensions and the pixels it decodes to. *)
Record PngFile := mkPngFile {
  pngWidth : Z;
  pngHeight : Z;
  pngPixels : ImageData;
}.

(** The off-screen canvas of [handleExport]: [CANVAS_WIDTH] by
    [CANVAS_HEIGHT], holding [img], read back with
    [toDataURL("image/png")]. *)
Definition offscreenPng (img : ImageData) : PngFile :=
  mkPngFile CANVAS_WIDTH CANVAS_HEIGHT img.

(** A JSZip archive: its entries in insertion order. *)
Definition JSZip : Type := list (string * PngFile).

(** [zip.file(name, data)]: a name already present has its data
    replaced, a new name is appended. *)
Fixpoint zipFile (name : string) (data : PngFile) (zip : JSZip) : JSZip :=
  match zip with
  | [] => [(name, data)]
  | (n, d) :: rest =>
      if String.eqb n name then (n, data) :: rest
      else (n, d) :: zipFile name data rest
  end.

(** The template literal [`frame${i + 1}.png`]. *)
Definition frameName (i : nat) : string :=
  "frame" +:+ pretty (i + 1)%nat +:+ ".png".

(** [frames.forEach((img, i) => { if (img) { ... zip.file(...) } })],
    from index [i] on. *)
Fixpoint exportFrom (i : nat) (fs : list Frame) (zip : JSZip) : JSZip :=
  match fs with
  | [] => zip
  | img :: rest =>
      exportFrom (S i) rest
        match img with
        | Some data => zipFile (frameName i) (offscreenPng data) zip
        | None => zip
        end
  end.

(** What the browser is asked to download. *)
Record Download := mkDownload {
  downloadName : string;
  archive : JSZip;
}.

Definition handleExport (s : State) : Download :=
  mkDownload "animation.zip" (exportFrom 0 (frames s) []).

(** The export as the spec words it: one image per non-blank frame, in
    order of position, named by the frame's 1-based position. *)
Definition imagesByPosition (fs : list Frame) : JSZip :=
  omap id (imap (λ i f, (λ img, (frameName i, offscreenPng img)) <$> f) fs).

(** ** Predicates of the claims *)

(** The frame-store invariant. *)
Definition storeInvariant (s : State) : Prop :=
  (1 ≤ length (frames s))%nat
  ∧ 0 ≤ currentFrame s < Z.of_nat (length (frames s)).

(** A point of the canvas. *)
Definition inCanvas (p : Z * Z) : Prop :=
  0 ≤ p.1 < CANVAS_WIDTH ∧ 0 ≤ p.2 < CANVAS_HEIGHT.

(** Nothing is pending between two events: the live surface shows the
    frame under the cursor, no edit awaits its commit, and an interval
    runs exactly while playing, over the current length. *)
Definition settled (s : State) : Prop :=
  dirty s = false
  ∧ pixels (ctx s) = shown (read s (currentFrame s))
  ∧ timer s = (if playing s then Some (Z.of_nat (length (frames s))) else None).

(** Two states that differ at most in the identity of the frame array. *)
Definition sameView (s t : State) : Prop :=
  tool s = tool t ∧ color s = color t ∧ frames s = frames t
  ∧ currentFrame s = currentFrame t ∧ playing s = playing t
  ∧ drawing s = drawing t ∧ lastPt s = lastPt t ∧ dirty s = dirty t
  ∧ ctx s = ctx t ∧ timer s = timer t.

(** ** What the page shows *)

(** One cell of the timeline: the border and background of its [div], its
    title, and the frame its 32 by 24 thumbnail canvas is drawn from
    ([None]: the ref callback draws nothing). *)
Record TimelineCell := mkTimelineCell {
  cellBorder : string;
  cellBackground : string;
  cellTitle : string;
  cellThumbnail : option ImageData;
}.

(** [frames.map((img, i) => <div ...> <canvas ... /> </div>)] *)
Definition timeline (s : State) : list TimelineCell :=
  imap (λ i img,
          mkTimelineCell
            (if Z.of_nat i =? currentFrame s then "2px solid #24f" else "1px solid #ccc")
            (match img with Some _ => "#eee" | None => "#fafaff" end)
            ("Frame " +:+ pretty (i + 1)%nat)
            img)
       (frames s).

(** [disabled={frames.length<2}] of the delete button. *)
Definition deleteDisabled (s : State) : bool :=
  Z.of_nat (length (frames s)) <? 2.

(** [disabled={tool==="brush"}] of the brush button. *)
Definition brushDisabled (s : State) : bool := String.eqb (tool s) "brush".

(** The events whose handler or effects call [setFrames]. *)
Definition editsStore (ev : Event) : bool :=
  match ev with
  | PointerMove _ _ | ClickSaveFrame | ClickAddFrame | ClickDeleteFrame => true
  | _ => false
  end.

(** The cells of [s] once nothing is pending: the canvas reloaded from the
    frame under the cursor, [dirty] cleared, and the interval as the
    playback effect leaves it. *)
Definition atRest (s : State) : State :=
  mkState (tool s) (color s) (frames s) (framesRef s) (currentFrame s)
          (playing s) (drawing s) (lastPt s) false
          (mkContext2D (shown (read s (currentFrame s)))
                       (strokeStyle (ctx s)) (lineWidth (ctx s)))
          (if playing s then Some (Z.of_nat (length (frames s))) else None).

(** ** Pointer handlers that may throw

    How a handler ends: it returns, or it throws, leaving the state
    updates it had made. In the pointer handlers only the dereferences of
    [canvasRef.current] can throw, a [TypeError] when it is [null];
    [Math.floor], the setters and the canvas calls do not throw, whatever
    their arguments. [current] is [canvasRef.current] as the bounding
    rectangle of the canvas, [None] for [null]. *)
Inductive Completion :=
| Returns (s : State)
| Throws (error : string) (s : State).

Definition handlePointerDownOn
    (current : option DOMRect) (e : PointerEvent) (s : State) : Completion :=
  if negb (String.eqb (tool s) "brush") then Returns s
  else
    let s1 := setDrawing true s in
    match current with
    | None => Throws "TypeError" s1
    | Some rect =>
        let x := localX rect e in
        let y := localY rect e in
        Returns (setLastPt (x, y) s1)
    end.

Definition handlePointerMoveOn
    (current : option DOMRect) (e : PointerEvent) (s : State) : Completion :=
  if negb (drawing s) || negb (String.eqb (tool s) "brush") then Returns s
  else
    match current with
    | None => Throws "TypeError" s
    | Some rect =>
        let x := localX rect e in
        let y := localY rect e in
        let draw c := stroke (lastPt s) (x, y) (setLineWidth 2 (setStrokeStyle (color s) c)) in
        Returns (setDirty true (setLastPt (x, y) (withCtx draw s)))
    end.

(** ** Pointer-moves between two renders *)

(** [handlePointerMove] as the render [r] created it, run on the running
    state [w]: the guard, the colour and the start point are the values of
    [r], the closure of the handler; the canvas is drawn on at once and the
    setters update [w]. *)
Definition handlePointerMoveIn
    (r : State) (rect : DOMRect) (e : PointerEvent) (w : State) : State :=
  if negb (drawing r) || negb (String.eqb (tool r) "brush") then w
  else
    let x := localX rect e in
    let y := localY rect e in
    let draw c := stroke (lastPt r) (x, y) (setLineWidth 2 (setStrokeStyle (color r) c)) in
    setDirty true (setLastPt (x, y) (withCtx draw w)).

(** Pointer-moves delivered before React renders again: each runs the
    handler of the last render [s]; the renders and effects follow the
    last of them. A single move is [dispatch (handlePointerMove rect e)]. *)
Definition dispatchMoves (moves : list (DOMRect * PointerEvent)) (s : State) : State :=
  settle renderRounds s (foldl (λ w m, handlePointerMoveIn s m.1 m.2 w) s moves).

(** The segments from [from] to each of the points [pts], stroked in
    [style] with line width 2 over [img]. *)
Definition fan (style : string) (from : Z * Z) (pts : list (Z * Z))
    (img : ImageData) : ImageData :=
  foldl (λ acc pt, strokeLine style 2 from pt acc) img pts.

End Model.

(** ** A concrete canvas

    A canvas that records the segments stroked on it, for evaluating the
    model on concrete inputs. *)

Definition Segment : Type := string * Z * (Z * Z) * (Z * Z).

Definition traceCanvas : Canvas2D :=
  {| ImageData := list Segment;
     transparentBlack := [];
     strokeLine := λ style width from to img, img ++ [(style, width, from, to)] |}.

(** Sample inputs on the recording canvas. *)

Section Samples.
#[local] Existing Instance traceCanvas.

(** A canvas whose bounding rectangle starts at the client origin. *)
Definition pageOrigin : DOMRect := mkDOMRect 0 0.

Definition pointerAt (x y : float) : PointerEvent := mkPointerEvent x y.

(** The diagonal stroke of the spec's scenario. *)
Definition diagonal : ImageData := [("#222222", 2, (10, 10), (50, 50))].

(** Draw a diagonal from (10,10) to (50,50), release, save the frame
    and add a frame: two frames, the cursor on the second, blank one. *)
Definition strokeSaveAdd : list Event :=
  [ PointerDown pageOrigin (pointerAt 10 10);
    PointerMove pageOrigin (pointerAt 50 50);
    PointerUp; ClickSaveFrame; ClickAddFrame ].

Definition twoFrames : State := run initialState strokeSaveAdd.

(** The same, then a stroke on the second frame, a third frame, and the
    cursor back on the second: three frames, the cursor in the middle. *)
Definition threeFrames : State :=
  run twoFrames
    [ PointerDown pageOrigin (pointerAt 5 5);
      PointerMove pageOrigin (pointerAt 7 9);
      PointerUp; ClickAddFrame; ClickThumbnail 1 ].

(** [threeFrames] with playback started. *)
Definition playingThree : State := react threeFrames ClickPlayPause.

(** The brush pressed on the second frame of [twoFrames]. *)
Definition pressed : State :=
  react twoFrames (PointerDown pageOrigin (pointerAt 20 20)).

(** [pressed] right after the handler of a pointer-move, before the
    render it asks for: the segment is on the canvas, [dirty] is set and
    the save effect has not run. *)
Definition pending : State :=
  handlePointerMove pageOrigin (pointerAt 30 40) pressed.

(** A pointer position to the right of and above the canvas. *)
Definition outside : PointerEvent := pointerAt 600 (-5).

(** Frames [blank, S1, blank, S2]. *)
Definition sparse : State :=
  setFrames (λ _, [None; Some diagonal; None; Some []]) initialState.

End Samples.

(** * Properties *)

(** ** JavaScript arrays on in-range indices *)

Module JsArrayFacts.
Import JsArray.

Lemma relIndex_inside (len : nat) (k : Z) :
  0 ≤ k ≤ Z.of_nat len → relIndex len k = Z.to_nat k.
Proof.
  intros Hk. unfold relIndex.
  destruct (Z.ltb_spec k 0); lia.
Qed.

Lemma slice_prefix {A} (k : Z) (a : list A) :
  0 ≤ k ≤ Z.of_nat (length a) → slice 0 k a = take (Z.to_nat k) a.
Proof.
  intros Hk. unfold slice.
  rewrite (relIndex_inside _ k) by done.
  rewrite (relIndex_inside _ 0) by lia.
  simpl. by rewrite Nat.sub_0_r.
Qed.

Lemma sliceFrom_suffix {A} (k : Z) (a : list A) :
  0 ≤ k ≤ Z.of_nat (length a) → sliceFrom k a = drop (Z.to_nat k) a.
Proof. intros Hk. unfold sliceFrom. by rewrite relIndex_inside. Qed.

Lemma splice_one {A} (k : Z) (a : list A) :
  0 ≤ k < Z.of_nat (length a) → splice k 1 a = delete (Z.to_nat k) a.
Proof.
  intros Hk. unfold splice.
  rewrite relIndex_inside by lia.
  replace (Z.to_nat (Z.min (Z.max 1 0) (Z.of_nat (length a - Z.to_nat k))))
    with 1%nat by lia.
  rewrite Nat.add_1_r. symmetry. apply delete_take_drop.
Qed.

Lemma index_of_nat {A} (a : list A) (i : nat) : index a (Z.of_nat i) = a !! i.
Proof.
  unfold index. destruct (Z.ltb_spec (Z.of_nat i) 0); [lia|].
  by rewrite Nat2Z.id.
Qed.

Lemma index_inside {A} (a : list A) (k : Z) :
  0 ≤ k → index a k = a !! Z.to_nat k.
Proof. intros Hk. unfold index. destruct (Z.ltb_spec k 0); [lia|done]. Qed.

Lemma rem_wraps (a n : Z) : 0 ≤ a → 0 < n → rem a n = a `mod` n.
Proof. intros Ha Hn. unfold rem. apply Z.rem_mod_nonneg; lia. Qed.

End JsArrayFacts.

Section Properties.
Context `{Canvas2D}.
Import JsArrayFacts.

(** ** Renders and effects *)

(** A render whose [dirty] cell did not move: the save effect stays
    quiet, so only the canvas and the interval can differ afterwards. *)
Lemma runEffects_quiet (p r : State) :
  (dirty r = true → dirty p = true) →
  let w := runEffects p r in
  tool w = tool r ∧ color w = color r ∧ frames w = frames r
  ∧ framesRef w = framesRef r ∧ currentFrame w = currentFrame r
  ∧ playing w = playing r ∧ drawing w = drawing r ∧ lastPt w = lastPt r
  ∧ dirty w = dirty r
  ∧ strokeStyle (ctx w) = strokeStyle (ctx r)
  ∧ lineWidth (ctx w) = lineWidth (ctx r)
  ∧ pixels (ctx w) = (if loadDepsChanged p r
                      then shown (read r (currentFrame r))
                      else pixels (ctx r))
  ∧ timer w = (if playbackDepsChanged p r
               then (if playing r then Some (Z.of_nat (length (frames r))) else None)
               else timer r).
Proof.
  intros Hd. unfold runEffects, saveDepsChanged, saveEffect.
  unfold loadEffect, playbackEffect, playbackCleanup, read, shown.
  destruct (dirty r) eqn:Hr; [rewrite Hd by done|]; simpl;
    destruct (playbackDepsChanged p r), (loadDepsChanged p r),
      (JsArray.index (frames r) (currentFrame r)) as [[img|]|],
      (playing r) eqn:Hp, (dirty p);
    simpl; rewrite ?Hp, ?Hr; simpl; repeat split; done.
Qed.

(** A render whose [dirty] cell went from false to true: the save effect
    commits the live surface at the cursor and clears the flag. *)
Lemma runEffects_saving (p r : State) :
  dirty p = false → dirty r = true →
  let w := runEffects p r in
  let img := if loadDepsChanged p r
             then shown (read r (currentFrame r))
             else pixels (ctx r) in
  tool w = tool r ∧ color w = color r
  ∧ frames w = commitAt (currentFrame r) img (frames r)
  ∧ framesRef w = S (framesRef r) ∧ currentFrame w = currentFrame r
  ∧ playing w = playing r ∧ drawing w = drawing r ∧ lastPt w = lastPt r
  ∧ dirty w = false
  ∧ strokeStyle (ctx w) = strokeStyle (ctx r)
  ∧ lineWidth (ctx w) = lineWidth (ctx r)
  ∧ pixels (ctx w) = img
  ∧ timer w = (if playbackDepsChanged p r
               then (if playing r then Some (Z.of_nat (length (frames r))) else None)
               else timer r).
Proof.
  intros Hp Hr. unfold runEffects, saveDepsChanged, saveEffect.
  unfold loadEffect, playbackEffect, playbackCleanup, read, shown.
  rewrite Hp, Hr. simpl.
  destruct (playbackDepsChanged p r), (loadDepsChanged p r),
    (JsArray.index (frames r) (currentFrame r)) as [[img|]|],
    (playing r) eqn:Hpl;
    simpl; rewrite ?Hpl; simpl; repeat split; done.
Qed.

Lemma dispatch_quiet (h : State → State) (s : State) :
  (dirty (h s) = true → dirty s = true) → dispatch h s = runEffects s (h s).
Proof.
  intros Hd. unfold dispatch, renderRounds. simpl.
  destruct (runEffects_quiet s (h s))
    as (_ & _ & _ & Href & _ & _ & _ & _ & Hdirty & _); [done|].
  unfold cellsUpdated. rewrite Href, Hdirty, Nat.eqb_refl, eqb_reflx. done.
Qed.

(** An event whose handler changes no cell at all causes no render. *)
Lemma runEffects_same (s : State) : runEffects s s = s.
Proof.
  unfold runEffects, playbackDepsChanged, loadDepsChanged, saveDepsChanged.
  by rewrite !eqb_reflx, Z.eqb_refl, !Nat.eqb_refl.
Qed.

Lemma dispatch_unchanged (h : State → State) (s : State) :
  h s = s → dispatch h s = s.
Proof.
  intros Hs. rewrite dispatch_quiet by (by rewrite Hs).
  rewrite Hs. apply runEffects_same.
Qed.

Lemma length_commitAt (cur : Z) (img : ImageData) (f : list Frame) :
  length (commitAt cur img f) = length f.
Proof. apply length_imap. Qed.

(** The effects of a render never ask for more than one further render. *)
Lemma runEffects_second_round (p r : State) :
  cellsUpdated r (runEffects p r) = true →
  cellsUpdated (runEffects p r) (runEffects r (runEffects p r)) = false.
Proof.
  intros Hup.
  assert (dirty (runEffects p r) = false) as Hclean.
  { destruct (dirty r) eqn:Hr, (dirty p) eqn:Hp.
    - destruct (runEffects_quiet p r)
        as (_ & _ & _ & Href & _ & _ & _ & _ & Hd & _); [congruence|].
      unfold cellsUpdated in Hup.
      by rewrite Href, Hd, Nat.eqb_refl, eqb_reflx in Hup.
    - by destruct (runEffects_saving p r Hp Hr)
        as (_ & _ & _ & _ & _ & _ & _ & _ & Hd & _).
    - destruct (runEffects_quiet p r)
        as (_ & _ & _ & _ & _ & _ & _ & _ & Hd & _); congruence.
    - destruct (runEffects_quiet p r)
        as (_ & _ & _ & _ & _ & _ & _ & _ & Hd & _); congruence. }
  destruct (runEffects_quiet r (runEffects p r))
    as (_ & _ & _ & Href & _ & _ & _ & _ & Hd & _); [congruence|].
  unfold cellsUpdated. by rewrite Href, Hd, Nat.eqb_refl, eqb_reflx.
Qed.

(** More fuel than [renderRounds] changes nothing: the renders of an
    event always come to rest. *)
Lemma settle_enough_fuel (n : nat) (p r : State) :
  (renderRounds ≤ n)%nat → settle n p r = settle renderRounds p r.
Proof.
  unfold renderRounds. intros Hn.
  destruct n as [|[|n]]; [lia..|]. simpl.
  destruct (cellsUpdated r (runEffects p r)) eqn:Hup; [|done].
  by rewrite (runEffects_second_round p r Hup).
Qed.

(** ** The frame store: insert and delete *)

Lemma addFrame_frames (s : State) :
  storeInvariant s →
  frames (addFrame s)
  = take (S (Z.to_nat (currentFrame s))) (frames s)
    ++ None :: drop (S (Z.to_nat (currentFrame s))) (frames s).
Proof.
  intros [Hlen Hcur]. unfold addFrame. simpl.
  rewrite slice_prefix, sliceFrom_suffix by lia.
  by replace (Z.to_nat (currentFrame s + 1)) with (S (Z.to_nat (currentFrame s))) by lia.
Qed.

Lemma deleteFrame_single (s : State) :
  (length (frames s) < 2)%nat → deleteFrame s = s.
Proof.
  intros Hlen. unfold deleteFrame.
  destruct (Z.ltb_spec (Z.of_nat (length (frames s))) 2); [done|lia].
Qed.

Lemma deleteFrame_frames (s : State) :
  storeInvariant s → (2 ≤ length (frames s))%nat →
  frames (deleteFrame s) = delete (Z.to_nat (currentFrame s)) (frames s)
  ∧ currentFrame (deleteFrame s) = Z.max 0 (currentFrame s - 1)
  ∧ dirty (deleteFrame s) = dirty s.
Proof.
  intros [_ Hcur] Hlen. unfold deleteFrame.
  destruct (Z.ltb_spec (Z.of_nat (length (frames s))) 2); [lia|]. simpl.
  rewrite splice_one by lia.
  destruct (Z.ltb_spec 0 (currentFrame s)); repeat split; lia.
Qed.

Lemma dispatch_addFrame (s : State) :
  let s' := dispatch addFrame s in
  frames s' = frames (addFrame s)
  ∧ currentFrame s' = currentFrame s + 1
  ∧ pixels (ctx s') = shown (read (addFrame s) (currentFrame s + 1)).
Proof.
  simpl. rewrite dispatch_quiet by done.
  destruct (runEffects_quiet s (addFrame s))
    as (_ & _ & Hf & _ & Hc & _ & _ & _ & _ & _ & _ & Hpx & _); [done|].
  repeat split; [done..|].
  rewrite Hpx. unfold loadDepsChanged. simpl.
  destruct (Z.eqb_spec (currentFrame s) (currentFrame s + 1)); [lia|done].
Qed.

Lemma dispatch_deleteFrame (s : State) :
  let s' := dispatch deleteFrame s in
  frames s' = frames (deleteFrame s)
  ∧ currentFrame s' = currentFrame (deleteFrame s).
Proof.
  simpl.
  assert (dirty (deleteFrame s) = dirty s) as Hd.
  { unfold deleteFrame. by destruct (_ <? _). }
  rewrite dispatch_quiet by congruence.
  destruct (runEffects_quiet s (deleteFrame s))
    as (_ & _ & Hf & _ & Hc & _); [congruence|done].
Qed.

Lemma addFrame_keeps_invariant (s : State) :
  storeInvariant s → storeInvariant (dispatch addFrame s).
Proof.
  intros Hinv. destruct (dispatch_addFrame s) as (Hf & Hc & _).
  pose proof Hinv as [Hlen Hcur].
  unfold storeInvariant. rewrite Hf, Hc, addFrame_frames by done.
  rewrite length_app, length_take_le, length_cons, length_drop; lia.
Qed.

Lemma deleteFrame_keeps_invariant (s : State) :
  storeInvariant s → storeInvariant (dispatch deleteFrame s).
Proof.
  intros Hinv. destruct (dispatch_deleteFrame s) as (Hf & Hc).
  unfold storeInvariant. rewrite Hf, Hc.
  destruct (decide (length (frames s) < 2)%nat) as [Hone|Hmany].
  - by rewrite deleteFrame_single.
  - destruct (deleteFrame_frames s Hinv) as (Hf' & Hc' & _); [lia|].
    destruct Hinv as [Hlen Hcur].
    rewrite Hf', Hc', length_delete.
    + lia.
    + apply lookup_lt_is_Some. lia.
Qed.

Lemma initialState_invariant : storeInvariant initialState.
Proof. unfold storeInvariant. simpl. lia. Qed.

(** C1. Starting from the initial store of one blank frame, after every
    call of a sequence of add-frame and delete-frame operations (after the
    first [n] calls, for every [n]) the frame array has at least one
    element and the cursor is a valid index of it: [length >= 1] and
    [0 <= cursor < length]. *)
Theorem store_invariant_after_every_call (ops : list StoreOp) (n : nat) :
  storeInvariant (run initialState (storeOpEvent <$> take n ops)).
Proof.
  unfold run. generalize (take n ops). clear ops n.
  generalize initialState_invariant. generalize initialState.
  intros s Hs ops. revert s Hs.
  induction ops as [|op ops IH]; intros s Hs; simpl; [done|].
  apply IH. destruct op; simpl.
  - by apply addFrame_keeps_invariant.
  - by apply deleteFrame_keeps_invariant.
Qed.

Lemma lookup_inserted_after {A} (l : list A) (n j : nat) (x : A) :
  (n < length l)%nat →
  (take (S n) l ++ x :: drop (S n) l) !! j
  = if decide (j ≤ n)%nat then l !! j
    else if decide (j = S n) then Some x
    else l !! (j - 1)%nat.
Proof.
  intros Hn.
  assert (length (take (S n) l) = S n) as Htake by (rewrite length_take_le; lia).
  destruct (decide (j ≤ n)%nat) as [Hle|Hgt].
  - rewrite lookup_app_l by lia. apply lookup_take_lt. lia.
  - rewrite lookup_app_r by lia. rewrite Htake.
    destruct (decide (j = S n)) as [->|Hne].
    + by rewrite Nat.sub_diag.
    + rewrite lookup_cons_ne_0 by lia. rewrite lookup_drop. f_equal. lia.
Qed.

(** C2. On a store whose cursor [c] is a valid index, add-frame puts a
    blank frame right after position [c], moves the cursor to [c + 1] and
    makes the array exactly one longer; reading position [c + 1] then
    gives the blank frame, every frame up to [c] is read unchanged at its
    position, every frame after [c] is read unchanged one position
    further, and the live surface shows the blank frame. *)
Theorem addFrame_inserts_blank_after_cursor (s : State) :
  storeInvariant s →
  let c := currentFrame s in
  let s' := dispatch addFrame s in
  currentFrame s' = c + 1
  ∧ length (frames s') = S (length (frames s))
  ∧ read s' (c + 1) = Some getEmptyFrame
  ∧ (∀ i, i ≤ c → read s' i = read s i)
  ∧ (∀ i, c < i → read s' (i + 1) = read s i)
  ∧ pixels (ctx s') = transparentBlack.
Proof.
  intros Hinv c s'. pose proof Hinv as [Hlen Hcur].
  destruct (dispatch_addFrame s) as (Hf & Hc & Hpx).
  fold s' in Hf, Hc, Hpx. fold c in Hc, Hpx.
  rewrite addFrame_frames in Hf by done. fold c in Hf.
  assert (∀ j : nat, read s' (Z.of_nat j)
            = if decide (j ≤ Z.to_nat c)%nat then frames s !! j
              else if decide (j = S (Z.to_nat c)) then Some None
              else frames s !! (j - 1)%nat) as Hread.
  { intros j. unfold read. rewrite index_of_nat, Hf.
    apply lookup_inserted_after. lia. }
  assert (read s' (c + 1) = Some getEmptyFrame) as Hblank.
  { replace (c + 1) with (Z.of_nat (S (Z.to_nat c))) by lia.
    rewrite Hread. destruct (decide _); [lia|].
    by destruct (decide _). }
  split; [done|]. split.
  { rewrite Hf, length_app, length_take_le, length_cons, length_drop; lia. }
  split; [done|]. split; [|split].
  - intros i Hi. destruct (Z.ltb_spec i 0) as [Hneg|Hpos].
    + unfold read, JsArray.index.
      by destruct (Z.ltb_spec i 0); [|lia].
    + replace i with (Z.of_nat (Z.to_nat i)) by lia. rewrite Hread.
      destruct (decide _); [|lia]. unfold read. by rewrite index_of_nat.
  - intros i Hi.
    replace (i + 1) with (Z.of_nat (S (Z.to_nat i))) by lia. rewrite Hread.
    destruct (decide _); [lia|]. destruct (decide _); [lia|].
    unfold read. rewrite index_inside by lia. f_equal. lia.
  - rewrite Hpx. fold (read (addFrame s)).
    assert (read (addFrame s) (c + 1) = read s' (c + 1)) as ->.
    { unfold read. f_equal. rewrite Hf. by rewrite addFrame_frames. }
    by rewrite Hblank.
Qed.

(** C3. Delete-frame on a store of length 1 does nothing at all: the
    state, hence [length] and [read(0)], is unchanged. On a store of
    length at least 2 it removes exactly the frame at the cursor, makes
    the array one shorter and moves the cursor to [max(0, cursor - 1)].
    In both cases the array keeps at least one frame. *)
Theorem deleteFrame_noop_or_removes_cursor_frame (s : State) :
  storeInvariant s →
  let c := currentFrame s in
  let s' := dispatch deleteFrame s in
  (length (frames s) = 1%nat →
     s' = s ∧ length (frames s') = 1%nat ∧ read s' 0 = read s 0)
  ∧ ((2 ≤ length (frames s))%nat →
       frames s' = delete (Z.to_nat c) (frames s)
       ∧ S (length (frames s')) = length (frames s)
       ∧ currentFrame s' = Z.max 0 (c - 1))
  ∧ (1 ≤ length (frames s'))%nat.
Proof.
  intros Hinv c s'. pose proof Hinv as [Hlen Hcur].
  destruct (dispatch_deleteFrame s) as (Hf & Hc). fold s' in Hf, Hc.
  split; [|split].
  - intros Hone.
    assert (s' = s) as ->.
    { unfold s'. apply dispatch_unchanged, deleteFrame_single. lia. }
    done.
  - intros Hmany.
    destruct (deleteFrame_frames s Hinv Hmany) as (Hf' & Hc' & _).
    rewrite Hf, Hc, Hf', Hc'. split; [done|]. split; [|done].
    rewrite length_delete; [lia|]. apply lookup_lt_is_Some. lia.
  - by destruct (deleteFrame_keeps_invariant s Hinv) as [? _].
Qed.

(** C10. Delete-frame on a store of length at least 2 with cursor [c]
    keeps every other frame: a frame below [c] is read unchanged at its
    index, a frame above [c] is read unchanged at its index minus one. *)
Theorem deleteFrame_keeps_other_frames (s : State) :
  storeInvariant s → (2 ≤ length (frames s))%nat →
  let c := currentFrame s in
  let s' := dispatch deleteFrame s in
  (∀ i, i < c → read s' i = read s i)
  ∧ (∀ i, c < i → read s' (i - 1) = read s i).
Proof.
  intros Hinv Hmany c s'. pose proof Hinv as [Hlen Hcur].
  destruct (dispatch_deleteFrame s) as (Hf & _). fold s' in Hf.
  destruct (deleteFrame_frames s Hinv Hmany) as (Hf' & _).
  rewrite Hf' in Hf. fold c in Hf. unfold read. rewrite Hf. split.
  - intros i Hi. destruct (Z.ltb_spec i 0) as [Hneg|Hpos].
    + unfold JsArray.index. by destruct (Z.ltb_spec i 0); [|lia].
    + rewrite !index_inside by lia. apply list_lookup_delete_lt. lia.
  - intros i Hi. rewrite !index_inside by lia.
    rewrite list_lookup_delete_ge by lia. f_equal. lia.
Qed.

(** ** The frame store: commit *)

Lemma lookup_commitAt (cur : Z) (img : ImageData) (f : list Frame) (i : nat) :
  commitAt cur img f !! i
  = if decide (Z.of_nat i = cur) then (λ _, Some img) <$> f !! i else f !! i.
Proof.
  unfold commitAt. rewrite list_lookup_imap.
  destruct (Z.eqb_spec (Z.of_nat i) cur), (decide _); try congruence.
  - done.
  - by destruct lookup.
Qed.

Lemma commitAt_insert (cur : Z) (img : ImageData) (f : list Frame) :
  0 ≤ cur → commitAt cur img f = <[Z.to_nat cur := Some img]> f.
Proof.
  intros Hcur. apply list_eq. intros i. rewrite lookup_commitAt.
  destruct (decide (Z.of_nat i = cur)) as [<-|Hne].
  - rewrite Nat2Z.id. destruct (f !! i) eqn:Hi; simpl.
    + rewrite list_lookup_insert_eq; [done|]. by eapply lookup_lt_Some.
    + rewrite list_insert_ge; [done|]. by apply lookup_ge_None.
  - rewrite list_lookup_insert_ne; [done|lia].
Qed.

Lemma commitAt_read (cur : Z) (img : ImageData) (f : list Frame) :
  0 ≤ cur < Z.of_nat (length f) →
  JsArray.index (commitAt cur img f) cur = Some (Some img).
Proof.
  intros Hcur. rewrite index_inside, lookup_commitAt by lia.
  destruct (decide _); [|lia].
  destruct (lookup_lt_is_Some_2 f (Z.to_nat cur)) as [x ->]; [lia|done].
Qed.

Lemma commitAt_idempotent (cur : Z) (img : ImageData) (f : list Frame) :
  commitAt cur img (commitAt cur img f) = commitAt cur img f.
Proof.
  apply list_eq. intros i. rewrite !lookup_commitAt.
  destruct (decide _); [|done]. by destruct (f !! i).
Qed.

Lemma commitAt_elsewhere (cur i : Z) (img : ImageData) (f : list Frame) :
  i ≠ cur → JsArray.index (commitAt cur img f) i = JsArray.index f i.
Proof.
  intros Hne. unfold JsArray.index. destruct (i <? 0) eqn:Hi; [done|].
  rewrite lookup_commitAt. destruct (decide _); [lia|done].
Qed.

Lemma Context2D_ext (a b : Context2D) :
  pixels a = pixels b → strokeStyle a = strokeStyle b →
  lineWidth a = lineWidth b → a = b.
Proof. destruct a, b; simpl; congruence. Qed.

(** The save-frame button: the live surface is committed at the cursor
    and shown again; nothing else moves. *)
Lemma dispatch_copyFrame (s : State) :
  storeInvariant s →
  let s' := dispatch copyFrame s in
  tool s' = tool s ∧ color s' = color s
  ∧ frames s' = commitAt (currentFrame s) (pixels (ctx s)) (frames s)
  ∧ currentFrame s' = currentFrame s ∧ playing s' = playing s
  ∧ drawing s' = drawing s ∧ lastPt s' = lastPt s ∧ dirty s' = false
  ∧ ctx s' = ctx s ∧ timer s' = timer s.
Proof.
  intros [Hlen Hcur]. simpl. rewrite dispatch_quiet by done.
  destruct (runEffects_quiet s (copyFrame s))
    as (Ht & Hco & Hf & _ & Hc & Hpl & Hdr & Hl & Hd & Hss & Hlw & Hpx & Htm);
    [done|].
  repeat split; try done.
  - apply Context2D_ext; [|done..]. rewrite Hpx.
    unfold loadDepsChanged. simpl.
    rewrite Z.eqb_refl. simpl.
    destruct (Nat.eqb_spec (framesRef s) (S (framesRef s))); [lia|]. simpl.
    unfold read. simpl. unfold getImageData. by rewrite commitAt_read.
  - rewrite Htm. unfold playbackDepsChanged. simpl.
    by rewrite eqb_reflx, length_commitAt, Nat.eqb_refl.
Qed.

(** C4. On a store whose cursor [c] is a valid index, with [surface] the live
    surface: the save-frame action and the save effect of a dirty render
    both commit [surface] at [c]; reading [c] right after the commit returns
    exactly [surface]; and committing [surface] at [c] a second time changes nothing:
    the array is the same, and the whole state after two save-frame
    events is that after one, up to the identity of the array. *)
Theorem commit_round_trip_and_idempotence (s : State) :
  storeInvariant s →
  let c := currentFrame s in
  let surface := getImageData (ctx s) in
  let s1 := dispatch copyFrame s in
  frames (copyFrame s) = commitAt c surface (frames s)
  ∧ (dirty s = true → frames (saveEffect s s) = commitAt c surface (frames s))
  ∧ JsArray.index (commitAt c surface (frames s)) c = Some (Some surface)
  ∧ read s1 c = Some (Some surface)
  ∧ commitAt c surface (commitAt c surface (frames s)) = commitAt c surface (frames s)
  ∧ sameView (dispatch copyFrame s1) s1.
Proof.
  intros Hinv c surface s1. pose proof Hinv as [Hlen Hcur].
  destruct (dispatch_copyFrame s Hinv)
    as (Ht & Hco & Hf & Hc & Hpl & Hdr & Hl & Hd & Hctx & Htm).
  fold s1 in Ht, Hco, Hf, Hc, Hpl, Hdr, Hl, Hd, Hctx, Htm.
  assert (storeInvariant s1) as Hinv1.
  { unfold storeInvariant. rewrite Hf, Hc, length_commitAt. done. }
  destruct (dispatch_copyFrame s1 Hinv1)
    as (Ht2 & Hco2 & Hf2 & Hc2 & Hpl2 & Hdr2 & Hl2 & Hd2 & Hctx2 & Htm2).
  split; [done|]. split.
  { intros Hdirty. unfold saveEffect. by rewrite Hdirty. }
  split; [by apply commitAt_read|]. split.
  { unfold read. rewrite Hf. by apply commitAt_read. }
  split; [apply commitAt_idempotent|].
  unfold sameView. repeat split; try done.
  - rewrite Hf2, Hc, Hctx, Hf. apply commitAt_idempotent.
  - congruence.
Qed.

(** ** Playback *)

(** One tick of a registered interval moves the cursor and nothing else
    of the store; the interval stays as it is. *)
Lemma dispatch_timerTick (s : State) (n : Z) :
  timer s = Some n →
  let s' := dispatch timerTick s in
  currentFrame s' = JsArray.rem (currentFrame s + 1) n
  ∧ frames s' = frames s ∧ playing s' = playing s ∧ timer s' = Some n.
Proof.
  intros Htimer. simpl.
  assert (timerTick s = setCurrentFrame (λ prev, JsArray.rem (prev + 1) n) s) as Htick.
  { unfold timerTick. by rewrite Htimer. }
  rewrite dispatch_quiet by (by rewrite Htick).
  destruct (runEffects_quiet s (timerTick s))
    as (_ & _ & Hf & _ & Hc & Hpl & _ & _ & _ & _ & _ & _ & Htm);
    [by rewrite Htick|].
  rewrite Hf, Hc, Hpl, Htm, Htick. simpl. repeat split; [].
  unfold playbackDepsChanged. simpl.
  by rewrite eqb_reflx, Nat.eqb_refl.
Qed.

Lemma ticks_wrap_around (s : State) (k : nat) :
  storeInvariant s →
  timer s = Some (Z.of_nat (length (frames s))) →
  let s' := Nat.iter k (dispatch timerTick) s in
  currentFrame s' = (currentFrame s + Z.of_nat k) `mod` Z.of_nat (length (frames s))
  ∧ frames s' = frames s ∧ playing s' = playing s ∧ timer s' = timer s.
Proof.
  intros [Hlen Hcur] Htimer. induction k as [|k IH].
  - simpl. rewrite Z.add_0_r, Z.mod_small by done. done.
  - destruct IH as (Hc & Hf & Hpl & Htm).
    change (Nat.iter (S k) (dispatch timerTick) s)
      with (dispatch timerTick (Nat.iter k (dispatch timerTick) s)).
    set (t := Nat.iter k (dispatch timerTick) s) in *. cbv zeta.
    destruct (dispatch_timerTick t (Z.of_nat (length (frames s))))
      as (Hc' & Hf' & Hpl' & Htm'); [congruence|].
    rewrite Hc', Hf', Hpl', Htm', Hc. repeat split; try done.
    rewrite rem_wraps.
    + rewrite Z.add_mod_idemp_l by lia. f_equal. lia.
    + pose proof (Z.mod_pos_bound (currentFrame s + Z.of_nat k)
                    (Z.of_nat (length (frames s)))). lia.
    + lia.
Qed.

(** The play button: the interval is registered exactly while playing,
    over the current length of the array. *)
Lemma dispatch_togglePlaying (s : State) :
  let s' := dispatch togglePlaying s in
  playing s' = negb (playing s) ∧ frames s' = frames s
  ∧ currentFrame s' = currentFrame s
  ∧ timer s' = (if playing s then None else Some (Z.of_nat (length (frames s)))).
Proof.
  simpl. rewrite dispatch_quiet by done.
  destruct (runEffects_quiet s (togglePlaying s))
    as (_ & _ & Hf & _ & Hc & Hpl & _ & _ & _ & _ & _ & _ & Htm); [done|].
  rewrite Hf, Hc, Hpl, Htm. repeat split; [].
  unfold playbackDepsChanged. simpl. by destruct (playing s).
Qed.

Lemma ticks_without_interval (s : State) (j : nat) :
  timer s = None → Nat.iter j (dispatch timerTick) s = s.
Proof.
  intros Htimer. induction j as [|j IH]; [done|].
  simpl. rewrite IH. apply dispatch_unchanged.
  unfold timerTick. by rewrite Htimer.
Qed.

(** C5. In any playing state with a valid store of length [N >= 1], the
    cursor at [c0] and the interval of the playback effect registered:
    after [k] ticks the cursor is [(c0 + k) mod N]; each further tick sets
    it to [(cursor + 1) mod N] whatever the cursor is, so the last frame is
    followed by the first; the ticks leave the frames alone and playback
    goes on; and once pause is pressed no interval is left, so any number
    of further ticks leaves the whole state as it is. *)
Theorem playback_wraps_until_paused (s : State) (k j : nat) :
  storeInvariant s → settled s → playing s = true →
  let N := Z.of_nat (length (frames s)) in
  let c0 := currentFrame s in
  let ticked := Nat.iter k (dispatch timerTick) s in
  let paused := dispatch togglePlaying ticked in
  currentFrame ticked = (c0 + Z.of_nat k) `mod` N
  ∧ currentFrame (dispatch timerTick ticked) = (currentFrame ticked + 1) `mod` N
  ∧ frames ticked = frames s ∧ playing ticked = true
  ∧ playing paused = false ∧ timer paused = None
  ∧ currentFrame paused = currentFrame ticked
  ∧ Nat.iter j (dispatch timerTick) paused = paused.
Proof.
  intros Hinv (_ & _ & Htm) Hplaying N c0 ticked paused.
  pose proof Hinv as [Hlen Hcur]. rewrite Hplaying in Htm.
  destruct (ticks_wrap_around s k Hinv Htm) as (Hck & Hfk & Hplk & Htmk).
  fold ticked in Hck, Hfk, Hplk, Htmk.
  rewrite Hplaying in Hplk. rewrite Htm in Htmk.
  destruct (dispatch_timerTick ticked N Htmk) as (Hc1 & _).
  destruct (dispatch_togglePlaying ticked) as (Hplp & _ & Hcp & Htmp).
  fold paused in Hplp, Hcp, Htmp. rewrite Hplk in Hplp, Htmp. simpl in Hplp.
  assert (0 ≤ currentFrame ticked < N) as Hrange.
  { rewrite Hck. apply Z.mod_pos_bound. lia. }
  repeat split; try done.
  - rewrite Hc1. apply rem_wraps; lia.
  - by apply ticks_without_interval.
Qed.

(** ** Export *)

Lemma string_length_app (a b : string) :
  String.length (a +:+ b) = (String.length a + String.length b)%nat.
Proof. induction a as [|c a IH]; simpl; [done|]. by rewrite IH. Qed.

Lemma string_app_inj_r (a b t : string) : a +:+ t = b +:+ t → a = b.
Proof.
  revert b. induction a as [|c a IH]; intros [|d b] Heq; simpl in Heq.
  - done.
  - apply (f_equal String.length) in Heq.
    rewrite !string_length_app in Heq. simpl in Heq.
    rewrite ?string_length_app in Heq. lia.
  - apply (f_equal String.length) in Heq.
    rewrite !string_length_app in Heq. simpl in Heq.
    rewrite ?string_length_app in Heq. lia.
  - injection Heq as -> Heq. f_equal. by apply IH.
Qed.

Lemma frameName_inj (i j : nat) : frameName i = frameName j → i = j.
Proof.
  unfold frameName. intros Heq.
  apply (inj (String.app "frame")) in Heq.
  apply string_app_inj_r in Heq.
  apply (inj pretty) in Heq. lia.
Qed.

Lemma zipFile_fresh (name : string) (data : PngFile) (zip : JSZip) :
  (∀ d, (name, d) ∉ zip) → zipFile name data zip = zip ++ [(name, data)].
Proof.
  induction zip as [|[n d] zip IH]; intros Hfresh; simpl; [done|].
  destruct (String.eqb_spec n name) as [->|Hne].
  - exfalso. apply (Hfresh d). left.
  - f_equal. apply IH. intros d' Hin. apply (Hfresh d'). by right.
Qed.

(** The loop of [handleExport] from index [i] on, when the archive so far
    only holds names of earlier positions. *)
Lemma exportFrom_appends (i : nat) (fs : list Frame) (zip : JSZip) :
  (∀ n d, (n, d) ∈ zip → ∃ j, (j < i)%nat ∧ n = frameName j) →
  exportFrom i fs zip
  = zip ++ omap id (imap (λ k f, (λ img, (frameName (i + k), offscreenPng img)) <$> f) fs).
Proof.
  revert i zip. induction fs as [|f fs IH]; intros i zip Hzip; simpl.
  - by rewrite app_nil_r.
  - rewrite IH.
    + rewrite (imap_ext (_ ∘ S) (λ k f, (λ img, (frameName (S i + k), offscreenPng img)) <$> f));
        [|intros k x _; simpl; by rewrite Nat.add_succ_r].
      rewrite Nat.add_0_r. destruct f as [img|]; simpl; [|done].
      rewrite zipFile_fresh, <- app_assoc; [done|].
      intros d Hin. destruct (Hzip _ _ Hin) as (j & Hj & Hname).
      apply frameName_inj in Hname. lia.
    + intros n d Hin. destruct f as [img|].
      * rewrite zipFile_fresh in Hin.
        -- apply elem_of_app in Hin as [Hin|Hin].
           ++ destruct (Hzip _ _ Hin) as (j & Hj & Hname). exists j. split; [lia|done].
           ++ apply list_elem_of_singleton in Hin. injection Hin as -> _.
              exists i. split; [lia|done].
        -- intros d' Hin'. destruct (Hzip _ _ Hin') as (j & Hj & Hname).
           apply frameName_inj in Hname. lia.
      * destruct (Hzip _ _ Hin) as (j & Hj & Hname). exists j. split; [lia|done].
Qed.

Lemma exportFrom_imagesByPosition (fs : list Frame) :
  exportFrom 0 fs [] = imagesByPosition fs.
Proof.
  rewrite exportFrom_appends; [done|].
  intros n d Hin. by apply elem_of_nil in Hin.
Qed.

Lemma elem_of_imagesByPosition (fs : list Frame) (name : string) (png : PngFile) :
  (name, png) ∈ imagesByPosition fs
  ↔ ∃ i img, fs !! i = Some (Some img) ∧ name = frameName i ∧ png = offscreenPng img.
Proof.
  unfold imagesByPosition. rewrite list_elem_of_omap. split.
  - intros (o & Hin & Ho). simpl in Ho. subst o.
    apply elem_of_lookup_imap in Hin as (i & f & Heq & Hi).
    destruct f as [img|]; [|done]. simpl in Heq. injection Heq as -> ->.
    by exists i, img.
  - intros (i & img & Hi & -> & ->).
    exists (Some (frameName i, offscreenPng img)). split; [|done].
    apply elem_of_lookup_imap. by exists i, (Some img).
Qed.

Lemma length_images (B : Type) (g : nat → ImageData → B) (fs : list Frame) :
  length (omap id (imap (λ k f, g k <$> f) fs))
  = length (filter (λ f, is_Some f) fs).
Proof.
  revert g. induction fs as [|f fs IH]; intros g; [done|].
  rewrite imap_cons, filter_cons. specialize (IH (g ∘ S)).
  destruct f as [img|]; simpl.
  - f_equal. exact IH.
  - exact IH.
Qed.

(** The names of the archive follow the order of the positions. *)
Lemma images_in_order (base : nat) (fs : list Frame) :
  (omap id (imap (λ k f, (λ img, (frameName (base + k), offscreenPng img)) <$> f) fs)).*1
  `sublist_of` (frameName <$> seq base (length fs)).
Proof.
  revert base. induction fs as [|f fs IH]; intros base; [done|].
  rewrite imap_cons.
  rewrite (imap_ext (_ ∘ S) (λ k f, (λ img, (frameName (S base + k), offscreenPng img)) <$> f));
    [|intros k x _; simpl; by rewrite Nat.add_succ_r].
  rewrite Nat.add_0_r. simpl. destruct f as [img|]; simpl.
  - apply sublist_skip, (IH (S base)).
  - apply sublist_cons, (IH (S base)).
Qed.

(** C6. Export visits the frames in order of position and puts into the
    archive exactly one image per non-blank frame and none for a blank
    one; the image of the frame at (0-based) position [i] is named
    [frame{i+1}.png], whatever the number of blank frames before it; it
    is a PNG of 520 by 390 pixels that decodes to the frame's pixels; the
    names are pairwise distinct; and the download is called
    [animation.zip]. *)
Theorem export_one_png_per_nonblank_frame_named_by_position (s : State) :
  let d := handleExport s in
  downloadName d = "animation.zip"
  ∧ archive d = imagesByPosition (frames s)
  ∧ length (archive d) = length (filter (λ f, is_Some f) (frames s))
  ∧ (∀ i img, frames s !! i = Some (Some img)
       ↔ (frameName i, offscreenPng img) ∈ archive d)
  ∧ (∀ name png, (name, png) ∈ archive d →
       ∃ i img, frames s !! i = Some (Some img)
         ∧ name = "frame" +:+ pretty (i + 1)%nat +:+ ".png"
         ∧ pngWidth png = 520 ∧ pngHeight png = 390 ∧ pngPixels png = img)
  ∧ (archive d).*1 `sublist_of` (frameName <$> seq 0 (length (frames s))).
Proof.
  simpl. rewrite exportFrom_imagesByPosition.
  split; [done|]. split; [done|]. split; [apply length_images|].
  split; [|split].
  - intros i img. rewrite elem_of_imagesByPosition. split.
    + intros Hi. by exists i, img.
    + intros (j & img' & Hj & Hname & Hpng).
      apply frameName_inj in Hname as ->. by injection Hpng as ->.
  - intros name png (i & img & Hi & -> & ->)%elem_of_imagesByPosition.
    by exists i, img.
  - apply (images_in_order 0).
Qed.

(** ** Drawing input *)

Lemma handlePointerMove_idle (rect : DOMRect) (e : PointerEvent) (s : State) :
  drawing s = false ∨ tool s ≠ "brush" → handlePointerMove rect e s = s.
Proof.
  intros [Hidle|Htool]; unfold handlePointerMove.
  - by rewrite Hidle.
  - destruct (String.eqb_spec (tool s) "brush"); [done|].
    by rewrite orb_true_r.
Qed.

Lemma dispatch_handlePointerUp (s : State) :
  drawing (dispatch handlePointerUp s) = false.
Proof.
  rewrite dispatch_quiet by done.
  by destruct (runEffects_quiet s (handlePointerUp s))
    as (_ & _ & _ & _ & _ & _ & -> & _).
Qed.

Lemma dispatch_handlePointerDown (rect : DOMRect) (e : PointerEvent) (s : State) :
  tool s = "brush" →
  let s' := dispatch (handlePointerDown rect e) s in
  lastPt s' = (localX rect e, localY rect e) ∧ drawing s' = true.
Proof.
  intros Htool. simpl.
  assert (handlePointerDown rect e s
          = setLastPt (localX rect e, localY rect e) (setDrawing true s)) as Hdown.
  { unfold handlePointerDown. by rewrite Htool. }
  rewrite dispatch_quiet by (by rewrite Hdown).
  destruct (runEffects_quiet s (handlePointerDown rect e s))
    as (_ & _ & _ & _ & _ & _ & Hdr & Hl & _); [by rewrite Hdown|].
  by rewrite Hl, Hdr, Hdown.
Qed.

(** A pointer-move inside a stroke: the segment is drawn on the live
    surface with the raw coordinates of the event, and the renders that
    follow commit the surface at the cursor and clear the dirty flag. *)
Lemma dispatch_handlePointerMove (rect : DOMRect) (e : PointerEvent) (s : State) :
  storeInvariant s → dirty s = false →
  drawing s = true → tool s = "brush" →
  let s' := dispatch (handlePointerMove rect e) s in
  let pt := (localX rect e, localY rect e) in
  let img := strokeLine (color s) 2 (lastPt s) pt (pixels (ctx s)) in
  tool s' = tool s ∧ color s' = color s
  ∧ frames s' = commitAt (currentFrame s) img (frames s)
  ∧ currentFrame s' = currentFrame s ∧ playing s' = playing s
  ∧ drawing s' = true ∧ lastPt s' = pt ∧ dirty s' = false
  ∧ ctx s' = mkContext2D img (color s) 2 ∧ timer s' = timer s.
Proof.
  intros [Hlen Hcur] Hclean Hdrawing Htool s' pt img.
  set (draw c := stroke (lastPt s) pt (setLineWidth 2 (setStrokeStyle (color s) c))).
  assert (handlePointerMove rect e s
          = setDirty true (setLastPt pt (withCtx draw s))) as Hmove.
  { unfold handlePointerMove. by rewrite Hdrawing, Htool. }
  set (r := handlePointerMove rect e s) in *.
  assert (dirty r = true) as Hdirty by (by rewrite Hmove).
  destruct (runEffects_saving s r Hclean Hdirty)
    as (Ht & Hco & Hf & Href & Hc & Hpl & Hdr & Hl & Hd & Hss & Hlw & Hpx & Htm).
  set (w := runEffects s r) in *.
  assert (loadDepsChanged s r = false) as Hload.
  { unfold loadDepsChanged. rewrite Hmove. simpl.
    by rewrite Z.eqb_refl, Nat.eqb_refl. }
  assert (playbackDepsChanged s r = false) as Hplay.
  { unfold playbackDepsChanged. rewrite Hmove. simpl.
    by rewrite eqb_reflx, Nat.eqb_refl. }
  rewrite Hload in Hf, Hpx. rewrite Hplay in Htm.
  assert (s' = runEffects r w) as ->.
  { unfold s', dispatch, renderRounds. simpl. fold r. fold w.
    assert (cellsUpdated r w = true) as ->.
    { unfold cellsUpdated. rewrite Href.
      destruct (Nat.eqb_spec (framesRef r) (S (framesRef r))); [lia|done]. }
    by destruct (cellsUpdated w _). }
  destruct (runEffects_quiet r w)
    as (Ht' & Hco' & Hf' & _ & Hc' & Hpl' & Hdr' & Hl' & Hd' & Hss' & Hlw' & Hpx' & Htm');
    [congruence|].
  assert (loadDepsChanged r w = true) as Hload'.
  { unfold loadDepsChanged. rewrite Href.
    destruct (Nat.eqb_spec (framesRef r) (S (framesRef r))); [lia|].
    by rewrite orb_true_r. }
  assert (playbackDepsChanged r w = false) as Hplay'.
  { unfold playbackDepsChanged.
    by rewrite Hpl, Hf, length_commitAt, eqb_reflx, Nat.eqb_refl. }
  rewrite Hload' in Hpx'. rewrite Hplay' in Htm'.
  assert (pixels (ctx r) = img ∧ strokeStyle (ctx r) = color s
          ∧ lineWidth (ctx r) = 2 ∧ currentFrame r = currentFrame s
          ∧ frames r = frames s ∧ lastPt r = pt ∧ drawing r = true
          ∧ tool r = tool s ∧ color r = color s ∧ playing r = playing s
          ∧ timer r = timer s) as (Hrp & Hrs & Hrl & Hrc & Hrf & Hrl' & Hrd & Hrt & Hrco & Hrpl & Hrtm).
  { by rewrite Hmove. }
  assert (frames w = commitAt (currentFrame s) img (frames s)) as Hfw.
  { by rewrite Hf, Hrc, Hrp, Hrf. }
  repeat split; try congruence.
  apply Context2D_ext; simpl; [|congruence..].
  rewrite Hpx'. unfold read. rewrite Hfw, Hc, Hrc. by rewrite commitAt_read.
Qed.

Lemma handlePointerDownOn_mounted (rect : DOMRect) (e : PointerEvent) (s : State) :
  handlePointerDownOn (Some rect) e s = Returns (handlePointerDown rect e s).
Proof.
  unfold handlePointerDownOn, handlePointerDown.
  by destruct (negb (String.eqb (tool s) "brush")).
Qed.

Lemma handlePointerMoveOn_mounted (rect : DOMRect) (e : PointerEvent) (s : State) :
  handlePointerMoveOn (Some rect) e s = Returns (handlePointerMove rect e s).
Proof.
  unfold handlePointerMoveOn, handlePointerMove.
  by destruct (negb (drawing s) || negb (String.eqb (tool s) "brush")).
Qed.

(** C7, amended. With the brush active, pointer-down and pointer-move
    never clamp and never fail. Whatever the client coordinates, inside
    the canvas or not, as long as their differences from the canvas
    rectangle are finite doubles: the last point becomes [Math.floor] of
    those double differences, unchanged; a pointer-move inside a stroke
    draws the segment from the previous last point to exactly that point,
    leaving what falls outside to the clipping of the canvas; and with the
    canvas mounted both handlers return and do not throw (pointer-up has
    no step that could). *)
Theorem pointer_coordinates_recorded_unclamped
    (rect : DOMRect) (e : PointerEvent) (s : State) :
  storeInvariant s → dirty s = false → tool s = "brush" →
  is_finite (clientX e - rectLeft rect) = true →
  is_finite (clientY e - rectTop rect) = true →
  let pt := (JsNumber.Math_floor (clientX e - rectLeft rect),
             JsNumber.Math_floor (clientY e - rectTop rect)) in
  lastPt (react s (PointerDown rect e)) = pt
  ∧ (drawing s = true →
       lastPt (react s (PointerMove rect e)) = pt
       ∧ pixels (ctx (react s (PointerMove rect e)))
         = strokeLine (color s) 2 (lastPt s) pt (pixels (ctx s)))
  ∧ handlePointerDownOn (Some rect) e s = Returns (handlePointerDown rect e s)
  ∧ handlePointerMoveOn (Some rect) e s = Returns (handlePointerMove rect e s).
Proof.
  intros Hinv Hclean Htool _ _ pt. split; [|split; [|split]].
  - destruct (dispatch_handlePointerDown rect e s Htool) as [Hl _].
    exact Hl.
  - intros Hdrawing.
    destruct (dispatch_handlePointerMove rect e s Hinv Hclean Hdrawing Htool)
      as (_ & _ & _ & _ & _ & _ & Hl & _ & Hctx & _).
    split; [exact Hl|]. exact (f_equal pixels Hctx).
  - apply handlePointerDownOn_mounted.
  - apply handlePointerMoveOn_mounted.
Qed.

(** C9. A pointer-move that arrives while no stroke is active (in the
    initial state, or right after pointer-up or pointer-leave, or in any
    state whose [drawing] cell is false) or while the tool is not the
    brush leaves the entire state as it was: canvas, dirty flag, frames,
    cursor, last point and everything else. *)
Theorem pointerMove_outside_stroke_changes_nothing
    (rect : DOMRect) (e : PointerEvent) (s before : State) :
  s = initialState ∨ s = react before PointerUp ∨ s = react before PointerLeave
  ∨ drawing s = false ∨ tool s ≠ "brush" →
  react s (PointerMove rect e) = s.
Proof.
  intros Hidle. simpl. apply dispatch_unchanged, handlePointerMove_idle.
  destruct Hidle as [->|[->|[->|[Hidle|Htool]]]]; [left..|by left|by right].
  - done.
  - apply dispatch_handlePointerUp.
  - apply dispatch_handlePointerUp.
Qed.

(** ** Navigation *)

Lemma settle_quiet (p r : State) :
  (dirty r = true → dirty p = true) → settle renderRounds p r = runEffects p r.
Proof.
  intros Hd. unfold renderRounds. simpl.
  destruct (runEffects_quiet p r)
    as (_ & _ & _ & Href & _ & _ & _ & _ & Hdirty & _); [done|].
  unfold cellsUpdated. by rewrite Href, Hdirty, Nat.eqb_refl, eqb_reflx.
Qed.

Lemma settle_saving (p r : State) :
  dirty p = false → dirty r = true →
  settle renderRounds p r = runEffects r (runEffects p r).
Proof.
  intros Hp Hr. unfold renderRounds. simpl.
  destruct (runEffects_saving p r Hp Hr) as (_ & _ & _ & Href & _).
  assert (cellsUpdated r (runEffects p r) = true) as ->.
  { unfold cellsUpdated. rewrite Href.
    destruct (Nat.eqb_spec (framesRef r) (S (framesRef r))); [lia|done]. }
  by destruct (cellsUpdated _ _).
Qed.

(** C8. Take a state [s] whose live surface holds pixels that the frame
    under the cursor does not have, the render before it ([p]) showing
    the same cursor; [p] is [s] itself between two events, and the state
    before a pointer-move whose save effect has not run yet. Clicking the
    thumbnail of a different frame discards those pixels: the cursor
    moves there, the live surface becomes that frame's content (cleared
    if the frame is blank), and what is read at the old cursor is what it
    was, so it does not show the discarded surface. *)
Theorem navigation_discards_uncommitted_pixels (p s : State) (i : nat) :
  (i < length (frames s))%nat → Z.of_nat i ≠ currentFrame s →
  currentFrame p = currentFrame s →
  pixels (ctx s) ≠ shown (read s (currentFrame s)) →
  let old := currentFrame s in
  let s' := settle renderRounds p (selectFrame i s) in
  currentFrame s' = Z.of_nat i
  ∧ pixels (ctx s') = shown (read s (Z.of_nat i))
  ∧ read s' old = read s old
  ∧ shown (read s' old) ≠ pixels (ctx s).
Proof.
  intros Hi Hne Hprev Hlive old s'.
  set (r := selectFrame i s) in *.
  assert (loadDepsChanged p r = true) as Hload.
  { unfold loadDepsChanged. simpl.
    destruct (Z.eqb_spec (currentFrame p) (Z.of_nat i)); [lia|done]. }
  assert (currentFrame s' = Z.of_nat i
          ∧ pixels (ctx s') = shown (read s (Z.of_nat i))
          ∧ read s' old = read s old) as (Hc & Hpx & Hold).
  { destruct (dirty p) eqn:Hp, (dirty s) eqn:Hs.
    1,2,4: unfold s'; rewrite settle_quiet by (simpl; congruence);
      destruct (runEffects_quiet p r)
        as (_ & _ & Hf & _ & Hc & _ & _ & _ & _ & _ & _ & Hpx & _);
        [simpl; congruence|];
      rewrite Hload in Hpx; unfold read; by rewrite Hf.
    unfold s'. rewrite settle_saving by done.
    destruct (runEffects_saving p r Hp Hs)
      as (_ & _ & Hf & Href & Hc & _ & _ & _ & Hd & _).
    rewrite Hload in Hf.
    set (w := runEffects p r) in *.
    destruct (runEffects_quiet r w)
      as (_ & _ & Hf' & _ & Hc' & _ & _ & _ & _ & _ & _ & Hpx' & _);
      [congruence|].
    assert (loadDepsChanged r w = true) as Hload'.
    { unfold loadDepsChanged. rewrite Href.
      destruct (Nat.eqb_spec (framesRef r) (S (framesRef r))); [lia|].
      by rewrite orb_true_r. }
    rewrite Hload' in Hpx'.
    split; [by rewrite Hc', Hc|]. split.
    - rewrite Hpx'. unfold read at 1. rewrite Hf, Hc. simpl.
      rewrite commitAt_read by lia. done.
    - unfold read. rewrite Hf', Hf. simpl. apply commitAt_elsewhere.
      unfold old. lia. }
  repeat split; try done.
  rewrite Hold. intros Heq. apply Hlive. symmetry. exact Heq.
Qed.

(** ** Between events nothing is pending *)

(** A handler that draws nothing, leaves the interval alone and replaces
    the array whenever it changes it. *)
Lemma quiet_handler_keeps_settled (h : State → State) (s : State) :
  settled s → storeInvariant (h s) →
  dirty (h s) = false → ctx (h s) = ctx s → timer (h s) = timer s →
  (framesRef (h s) = framesRef s → frames (h s) = frames s) →
  storeInvariant (dispatch h s) ∧ settled (dispatch h s).
Proof.
  intros (Hd & Hpx & Htm) Hinv Hdirty Hctx Htimer Hsame.
  rewrite dispatch_quiet by congruence.
  destruct (runEffects_quiet s (h s))
    as (_ & _ & Hf & _ & Hc & Hpl & _ & _ & Hd' & _ & _ & Hpx' & Htm');
    [congruence|].
  split.
  { unfold storeInvariant. by rewrite Hf, Hc. }
  unfold settled, read. rewrite Hf, Hc, Hpl, Hd', Hpx', Htm'.
  split; [done|]. split.
  - unfold loadDepsChanged.
    destruct (Z.eqb_spec (currentFrame s) (currentFrame (h s))) as [Hcur|]; [|done].
    destruct (Nat.eqb_spec (framesRef s) (framesRef (h s))) as [Href|]; [|done].
    simpl. rewrite Hctx, Hpx. unfold read. by rewrite Hcur, Hsame.
  - unfold playbackDepsChanged.
    destruct (playing s) eqn:Hps, (playing (h s)) eqn:Hph; simpl; try done;
      destruct (Nat.eqb_spec (length (frames s)) (length (frames (h s)))) as [Hlen|];
      simpl; try done; rewrite Htimer, Htm, ?Hps; by rewrite ?Hlen.
Qed.

Lemma timerTick_keeps_invariant (s : State) :
  storeInvariant s → settled s → storeInvariant (timerTick s).
Proof.
  intros [Hlen Hcur] (_ & _ & Htm). unfold timerTick. rewrite Htm.
  destruct (playing s); [|done].
  unfold storeInvariant. simpl. split; [done|].
  rewrite rem_wraps by lia. apply Z.mod_pos_bound. lia.
Qed.

(** Every event takes a state with a valid store and nothing pending to
    another such state. *)
Lemma react_keeps_settled (s : State) (ev : Event) :
  storeInvariant s → settled s →
  storeInvariant (react s ev) ∧ settled (react s ev).
Proof.
  intros Hinv Hset. pose proof Hset as (Hd & Hpx & Htm).
  destruct ev as [rect e|rect e| | | |v| | | |i| |]; simpl.
  - apply quiet_handler_keeps_settled; try done;
      unfold handlePointerDown; by destruct (negb _).
  - destruct (drawing s) eqn:Hdr; [destruct (String.eqb_spec (tool s) "brush") as [Htool|Htool]|].
    + destruct (dispatch_handlePointerMove rect e s Hinv Hd Hdr Htool)
        as (_ & _ & Hf & Hc & Hpl & _ & _ & Hd' & Hctx & Htm').
      destruct Hinv as [Hlen Hcur]. split.
      * unfold storeInvariant. by rewrite Hf, Hc, length_commitAt.
      * unfold settled, read.
        rewrite Hf, Hc, Hpl, Hd', Hctx, Htm', length_commitAt, commitAt_read by done.
        done.
    + rewrite dispatch_unchanged; [done|]. apply handlePointerMove_idle. by right.
    + rewrite dispatch_unchanged; [done|]. apply handlePointerMove_idle. by left.
  - by apply quiet_handler_keeps_settled.
  - by apply quiet_handler_keeps_settled.
  - by apply quiet_handler_keeps_settled.
  - by apply quiet_handler_keeps_settled.
  - destruct (dispatch_copyFrame s Hinv)
      as (_ & _ & Hf & Hc & Hpl & _ & _ & Hd' & Hctx & Htm').
    destruct Hinv as [Hlen Hcur]. split.
    + unfold storeInvariant. by rewrite Hf, Hc, length_commitAt.
    + unfold settled, read.
      rewrite Hf, Hc, Hpl, Hd', Hctx, Htm', length_commitAt, commitAt_read by done.
      done.
  - apply quiet_handler_keeps_settled; try done.
    + pose proof (addFrame_keeps_invariant s Hinv) as Hinv'.
      destruct (dispatch_addFrame s) as (Hf & Hc & _).
      unfold storeInvariant in *. by rewrite Hf, Hc in Hinv'.
    + simpl. lia.
  - apply quiet_handler_keeps_settled; try done.
    + pose proof (deleteFrame_keeps_invariant s Hinv) as Hinv'.
      destruct (dispatch_deleteFrame s) as (Hf & Hc).
      unfold storeInvariant in *. by rewrite Hf, Hc in Hinv'.
    + unfold deleteFrame. by destruct (_ <? _).
    + unfold deleteFrame. by destruct (_ <? _).
    + unfold deleteFrame. by destruct (_ <? _).
    + unfold deleteFrame. destruct (_ <? _); [done|]. simpl. lia.
  - destruct (Nat.ltb_spec i (length (frames s))); [|done].
    apply quiet_handler_keeps_settled; try done.
    destruct Hinv as [Hlen Hcur]. unfold storeInvariant. simpl. lia.
  - by apply quiet_handler_keeps_settled.
  - apply quiet_handler_keeps_settled; try done;
      [by apply timerTick_keeps_invariant|..];
      unfold timerTick; by destruct (timer s) eqn:Htimer.
Qed.

Lemma initialState_settled : settled initialState.
Proof. done. Qed.

(** X1. Whatever the events since the page loaded, the store is valid,
    the live surface is the frame under the cursor, no edit awaits its
    commit and an interval runs exactly while playing, over the current
    number of frames. *)
Lemma reachable_settled (evs : list Event) :
  storeInvariant (run initialState evs) ∧ settled (run initialState evs).
Proof.
  unfold run.
  generalize initialState_settled initialState_invariant. generalize initialState.
  induction evs as [|ev evs IH]; intros s Hset Hinv; simpl; [done|].
  destruct (react_keeps_settled s ev Hinv Hset). by apply IH.
Qed.

End Properties.

(** * Further properties of the page *)

Section Extensions.
Context `{Canvas2D}.
Import JsArrayFacts.

(** ** Renders, in general *)

Lemma State_ext (a b : State) :
  tool a = tool b → color a = color b → frames a = frames b →
  framesRef a = framesRef b → currentFrame a = currentFrame b →
  playing a = playing b → drawing a = drawing b → lastPt a = lastPt b →
  dirty a = dirty b → ctx a = ctx b → timer a = timer b → a = b.
Proof. destruct a, b; simpl; congruence. Qed.

(** Effects never touch the tool, the colour, the cursor, the play flag,
    the stroke flag or the last point, and never change the number of
    frames. *)
Lemma runEffects_cells (p r : State) :
  let w := runEffects p r in
  tool w = tool r ∧ color w = color r ∧ currentFrame w = currentFrame r
  ∧ playing w = playing r ∧ drawing w = drawing r ∧ lastPt w = lastPt r
  ∧ length (frames w) = length (frames r).
Proof.
  destruct (dirty p) eqn:Hp, (dirty r) eqn:Hr.
  1,2,4: destruct (runEffects_quiet p r)
      as (Ht & Hco & Hf & _ & Hc & Hpl & Hdr & Hl & _); [congruence|];
    simpl; by rewrite Hf.
  destruct (runEffects_saving p r Hp Hr)
    as (Ht & Hco & Hf & _ & Hc & Hpl & Hdr & Hl & _).
  simpl. by rewrite Hf, length_commitAt.
Qed.

Lemma settle_cells (n : nat) (p r : State) :
  let w := settle n p r in
  tool w = tool r ∧ color w = color r ∧ currentFrame w = currentFrame r
  ∧ playing w = playing r ∧ drawing w = drawing r ∧ lastPt w = lastPt r
  ∧ length (frames w) = length (frames r).
Proof.
  revert p r. induction n as [|n IH]; intros p r; simpl; [done|].
  pose proof (runEffects_cells p r) as (Ht & Hco & Hc & Hpl & Hdr & Hl & Hlen).
  destruct (cellsUpdated r (runEffects p r)); [|done].
  destruct (IH r (runEffects p r)) as (Ht' & Hco' & Hc' & Hpl' & Hdr' & Hl' & Hlen').
  repeat split; congruence.
Qed.

Lemma atRest_settled (s : State) : settled s → atRest s = s.
Proof.
  intros (Hd & Hpx & Htm). apply State_ext; try done.
  by apply Context2D_ext.
Qed.

(** An event whose handler draws nothing and leaves the interval alone,
    from a state with nothing pending. *)
Lemma dispatch_atRest (h : State → State) (s : State) :
  settled s →
  dirty (h s) = false → ctx (h s) = ctx s → timer (h s) = timer s →
  (framesRef (h s) = framesRef s → frames (h s) = frames s) →
  dispatch h s = atRest (h s).
Proof.
  intros (Hd & Hpx & Htm) Hdirty Hctx Htimer Hsame.
  rewrite dispatch_quiet by congruence.
  destruct (runEffects_quiet s (h s))
    as (Ht & Hco & Hf & Href & Hc & Hpl & Hdr & Hl & Hd' & Hss & Hlw & Hpx' & Htm');
    [congruence|].
  apply State_ext; simpl; try congruence.
  - apply Context2D_ext; simpl; try congruence.
    rewrite Hpx'. unfold loadDepsChanged.
    destruct (Z.eqb_spec (currentFrame s) (currentFrame (h s))) as [Hcur|]; [|done].
    destruct (Nat.eqb_spec (framesRef s) (framesRef (h s))) as [Hr|]; [|done].
    simpl. rewrite Hctx, Hpx. unfold read. by rewrite Hcur, Hsame.
  - rewrite Htm'. unfold playbackDepsChanged.
    destruct (playing s) eqn:Hps, (playing (h s)) eqn:Hph; simpl; try done;
      destruct (Nat.eqb_spec (length (frames s)) (length (frames (h s)))) as [Hlen|];
      simpl; try done; rewrite Htimer, Htm, ?Hps; by rewrite ?Hlen.
Qed.

(** X2. The renders of an event always come to rest, after at most two
    rounds of effects: whatever the fuel beyond two, the result is that of
    the first round when it updated no cell and that of the second round
    otherwise, and the second round never updates a cell. The save effect
    sets state from inside an effect; its guard on [dirty] is what stops
    the loop. *)
Theorem renders_come_to_rest (p r : State) (n : nat) :
  let w1 := runEffects p r in
  let w2 := runEffects r w1 in
  settle (2 + n) p r = (if cellsUpdated r w1 then w2 else w1)
  ∧ (cellsUpdated r w1 = true → cellsUpdated w1 w2 = false).
Proof.
  simpl. split; [|apply runEffects_second_round].
  destruct (cellsUpdated r (runEffects p r)) eqn:Hup; [|done].
  rewrite (runEffects_second_round p r Hup). by destruct n.
Qed.

(** ** Drawing and saving *)

(** X3. A pointer-move inside a stroke is committed by the renders that
    follow it: afterwards the frame under the cursor is exactly the live
    surface, every other frame reads as before, the dirty flag is clear
    and the cursor has not moved. *)
Theorem pointerMove_commits_the_stroke
    (rect : DOMRect) (e : PointerEvent) (s : State) :
  storeInvariant s → dirty s = false → drawing s = true → tool s = "brush" →
  let c := currentFrame s in
  let s' := react s (PointerMove rect e) in
  read s' c = Some (Some (pixels (ctx s')))
  ∧ (∀ i, i ≠ c → read s' i = read s i)
  ∧ length (frames s') = length (frames s)
  ∧ dirty s' = false ∧ currentFrame s' = c.
Proof.
  intros Hinv Hclean Hdrawing Htool c s'.
  destruct (dispatch_handlePointerMove rect e s Hinv Hclean Hdrawing Htool)
    as (_ & _ & Hf & Hc & _ & _ & _ & Hd & Hctx & _).
  subst s'. change (react s (PointerMove rect e))
    with (dispatch (handlePointerMove rect e) s).
  destruct Hinv as [Hlen Hcur].
  unfold read. rewrite Hf, Hctx. simpl.
  split; [by apply commitAt_read|].
  split; [intros i Hi; by apply commitAt_elsewhere|].
  by rewrite length_commitAt.
Qed.

(** X5. Save-frame touches the frame under the cursor only: every other
    frame reads as before, the number of frames, the cursor and the canvas
    are unchanged, and the dirty flag is clear. *)
Theorem copyFrame_changes_cursor_frame_only (s : State) :
  storeInvariant s →
  let c := currentFrame s in
  let s' := react s ClickSaveFrame in
  (∀ i, i ≠ c → read s' i = read s i)
  ∧ length (frames s') = length (frames s)
  ∧ currentFrame s' = c ∧ ctx s' = ctx s ∧ dirty s' = false.
Proof.
  intros Hinv c s'.
  destruct (dispatch_copyFrame s Hinv)
    as (_ & _ & Hf & Hc & _ & _ & _ & Hd & Hctx & _).
  subst s'. change (react s ClickSaveFrame) with (dispatch copyFrame s).
  unfold read. rewrite Hf.
  split; [intros i Hi; by apply commitAt_elsewhere|].
  by rewrite length_commitAt.
Qed.

(** ** What the events leave alone *)

(** X10. Only pointer-move, save-frame, add-frame and delete-frame can
    change the frames: pointer-down, pointer-up, pointer-leave, the brush
    button, the colour picker, a thumbnail click, play/pause and a
    playback tick leave the frame array as it is, in any state. *)
Theorem other_events_keep_frames (s : State) (ev : Event) :
  editsStore ev = false → frames (react s ev) = frames s.
Proof.
  assert (∀ h : State → State, dirty (h s) = dirty s → frames (h s) = frames s →
            frames (dispatch h s) = frames s) as Hquiet.
  { intros h Hd Hf. rewrite dispatch_quiet by congruence.
    destruct (runEffects_quiet s (h s)) as (_ & _ & -> & _); [congruence|done]. }
  destruct ev as [rect e|rect e| | | |v| | | |i| |]; simpl; try done; intros _.
  - apply Hquiet; unfold handlePointerDown; by destruct (negb _).
  - by apply Hquiet.
  - by apply Hquiet.
  - by apply Hquiet.
  - by apply Hquiet.
  - destruct (_ <? _)%nat; [|done]. by apply Hquiet.
  - by apply Hquiet.
  - apply Hquiet; unfold timerTick; by destruct (timer s).
Qed.

(** X11. The number of frames moves by add-frame and delete-frame only:
    on a valid store add-frame makes it one more, delete-frame one less
    unless a single frame is left, and every other event keeps it. *)
Theorem frame_count_after_event (s : State) (ev : Event) :
  storeInvariant s →
  length (frames (react s ev))
  = match ev with
    | ClickAddFrame => S (length (frames s))
    | ClickDeleteFrame =>
        if (length (frames s) <? 2)%nat then length (frames s)
        else (length (frames s) - 1)%nat
    | _ => length (frames s)
    end.
Proof.
  intros Hinv. pose proof Hinv as [Hlen Hcur].
  assert (∀ h : State → State, length (frames (dispatch h s)) = length (frames (h s)))
    as Hdispatch.
  { intros h. unfold dispatch.
    by destruct (settle_cells renderRounds s (h s)) as (_ & _ & _ & _ & _ & _ & ->). }
  destruct ev as [rect e|rect e| | | |v| | | |i| |]; simpl;
    try (destruct (_ <? _)%nat eqn:Hlt); rewrite ?Hdispatch; try done.
  - unfold handlePointerDown. by destruct (negb _).
  - unfold handlePointerMove. by destruct (_ || _).
  - unfold copyFrame. simpl. apply length_commitAt.
  - rewrite addFrame_frames by done.
    rewrite length_app, length_take_le, length_cons, length_drop; lia.
  - rewrite deleteFrame_single; [done|]. apply Nat.ltb_lt in Hlt. lia.
  - apply Nat.ltb_ge in Hlt.
    destruct (deleteFrame_frames s Hinv) as (-> & _); [lia|].
    rewrite length_delete; [lia|]. apply lookup_lt_is_Some. lia.
  - unfold timerTick. by destruct (timer s).
Qed.

(** X16. The tool never leaves the brush: after any events since the page
    loaded the tool is ["brush"], the brush button is disabled, and a
    pointer-down always starts a stroke. *)
Theorem tool_is_always_the_brush
    (evs : list Event) (rect : DOMRect) (e : PointerEvent) :
  let s := run initialState evs in
  tool s = "brush" ∧ brushDisabled s = true
  ∧ drawing (react s (PointerDown rect e)) = true.
Proof.
  assert (∀ s ev, tool s = "brush" → tool (react s ev) = "brush") as Hstep.
  { intros s ev Htool.
    assert (∀ h : State → State, tool (dispatch h s) = tool (h s)) as Hdispatch.
    { intros h. unfold dispatch.
      by destruct (settle_cells renderRounds s (h s)) as (-> & _). }
    destruct ev as [r0 e0|r0 e0| | | |v| | | |i| |]; simpl;
      try (destruct (_ <? _)%nat); rewrite ?Hdispatch; try done.
    - unfold handlePointerDown. by destruct (negb _).
    - unfold handlePointerMove. by destruct (_ || _).
    - unfold deleteFrame. by destruct (_ <? _).
    - unfold timerTick. by destruct (timer s). }
  assert (tool (run initialState evs) = "brush") as Htool.
  { unfold run. assert (tool initialState = "brush") as Hinit by done.
    revert Hinit. generalize initialState.
    induction evs as [|ev evs IH]; intros s Hs; simpl; [done|].
    apply IH, Hstep, Hs. }
  simpl. split; [done|]. split.
  - unfold brushDisabled. by rewrite Htool.
  - by destruct (dispatch_handlePointerDown rect e _ Htool) as [_ ->].
Qed.

(** ** Round trips between events *)

Lemma atRest_is_settled (s : State) : settled (atRest s).
Proof. done. Qed.

Lemma deleteFrame_cells (s : State) :
  tool (deleteFrame s) = tool s ∧ color (deleteFrame s) = color s
  ∧ playing (deleteFrame s) = playing s ∧ drawing (deleteFrame s) = drawing s
  ∧ lastPt (deleteFrame s) = lastPt s ∧ dirty (deleteFrame s) = dirty s
  ∧ ctx (deleteFrame s) = ctx s ∧ timer (deleteFrame s) = timer s
  ∧ (framesRef (deleteFrame s) = framesRef s → frames (deleteFrame s) = frames s).
Proof.
  unfold deleteFrame. destruct (_ <? _); simpl; repeat split; try done. lia.
Qed.

(** X6. Add-frame followed at once by delete-frame undoes itself: on a
    valid store with nothing pending, the frames, the cursor, the canvas
    and every other cell are as before; only the identity of the frame
    array is new. *)
Theorem addFrame_then_deleteFrame_restores (s : State) :
  storeInvariant s → settled s →
  sameView (react (react s ClickAddFrame) ClickDeleteFrame) s.
Proof.
  intros Hinv Hset. pose proof Hinv as [Hlen Hcur].
  pose proof Hset as (Hd & Hpx & Htm). simpl.
  assert (dispatch addFrame s = atRest (addFrame s)) as Hadd.
  { apply dispatch_atRest; try done. simpl. lia. }
  set (s1 := dispatch addFrame s) in *.
  assert (storeInvariant s1) as Hinv1 by (by apply addFrame_keeps_invariant).
  assert (frames s1 = take (S (Z.to_nat (currentFrame s))) (frames s)
                      ++ None :: drop (S (Z.to_nat (currentFrame s))) (frames s)) as Hf1.
  { rewrite Hadd. simpl. by apply addFrame_frames. }
  assert (currentFrame s1 = currentFrame s + 1) as Hc1 by (by rewrite Hadd).
  destruct (deleteFrame_cells s1) as (Ht & Hco & Hpl & Hdr & Hl & Hdd & Hctx & Htmr & Href).
  assert (dispatch deleteFrame s1 = atRest (deleteFrame s1)) as ->.
  { apply dispatch_atRest; try done.
    - rewrite Hadd. apply atRest_is_settled.
    - rewrite Hdd. by rewrite Hadd. }
  destruct (deleteFrame_frames s1 Hinv1) as (Hf2 & Hc2 & _).
  { rewrite Hf1, length_app, length_take_le, length_cons, length_drop; lia. }
  assert (frames (deleteFrame s1) = frames s) as Hf.
  { rewrite Hf2, Hc1, Hf1.
    replace (Z.to_nat (currentFrame s + 1))
      with (length (take (S (Z.to_nat (currentFrame s))) (frames s)))
      by (rewrite length_take_le; lia).
    rewrite delete_middle. apply take_drop. }
  assert (currentFrame (deleteFrame s1) = currentFrame s) as Hc by lia.
  assert (tool s1 = tool s ∧ color s1 = color s ∧ playing s1 = playing s
          ∧ drawing s1 = drawing s ∧ lastPt s1 = lastPt s
          ∧ strokeStyle (ctx s1) = strokeStyle (ctx s)
          ∧ lineWidth (ctx s1) = lineWidth (ctx s))
    as (Ht1 & Hco1 & Hpl1 & Hdr1 & Hl1 & Hss1 & Hlw1) by (by rewrite Hadd).
  unfold sameView, atRest, read. simpl.
  rewrite Ht, Hco, Hpl, Hdr, Hl, Hf, Hc, Hctx, Ht1, Hco1, Hpl1, Hdr1, Hl1, Hss1, Hlw1.
  repeat split; try done.
  apply Context2D_ext; simpl; [|done..]. by rewrite Hpx.
Qed.

(** X7. With nothing pending, navigation loses nothing: clicking the
    thumbnail of frame [i] moves the cursor there, shows that frame and
    changes no frame, and clicking the thumbnail of the former frame
    afterwards gives back exactly the state before. *)
Theorem navigation_there_and_back (s : State) (i : nat) :
  storeInvariant s → settled s → (i < length (frames s))%nat →
  let there := react s (ClickThumbnail i) in
  let back := react there (ClickThumbnail (Z.to_nat (currentFrame s))) in
  currentFrame there = Z.of_nat i
  ∧ pixels (ctx there) = shown (read s (Z.of_nat i))
  ∧ frames there = frames s
  ∧ back = s.
Proof.
  intros [Hlen Hcur] Hset Hi there back.
  pose proof Hset as (Hd & Hpx & Htm).
  assert (there = atRest (selectFrame i s)) as Hthere.
  { unfold there. simpl. destruct (Nat.ltb_spec i (length (frames s))); [|lia].
    by apply dispatch_atRest. }
  assert (back = atRest (selectFrame (Z.to_nat (currentFrame s)) there)) as Hback.
  { unfold back. simpl.
    destruct (Nat.ltb_spec (Z.to_nat (currentFrame s)) (length (frames there)))
      as [_|Hge]; [|rewrite Hthere in Hge; simpl in Hge; lia].
    assert (settled there) as Hset' by (rewrite Hthere; apply atRest_is_settled).
    pose proof Hset' as (Hd' & _). by apply dispatch_atRest. }
  rewrite Hback, Hthere. simpl. repeat split.
  rewrite <- (atRest_settled s Hset) at 3.
  apply State_ext; simpl; try done; rewrite ?Z2Nat.id by lia; done.
Qed.

(** X17. With nothing pending, play followed at once by pause gives back
    exactly the state before: the interval is registered and removed and
    nothing else moves. *)
Theorem play_then_pause_restores (s : State) :
  settled s → react (react s ClickPlayPause) ClickPlayPause = s.
Proof.
  intros Hset. pose proof Hset as (Hd & Hpx & Htm). simpl.
  assert (dispatch togglePlaying s = atRest (togglePlaying s)) as ->
    by (by apply dispatch_atRest).
  rewrite dispatch_atRest by done.
  rewrite <- (atRest_settled s Hset) at 2.
  apply State_ext; simpl; try done; by rewrite negb_involutive.
Qed.

(** ** Playback and the canvas *)

Lemma ticks_atRest (s : State) (k : nat) :
  storeInvariant s → settled s → playing s = true →
  Nat.iter k (dispatch timerTick) s
  = atRest (setCurrentFrame
              (λ _, (currentFrame s + Z.of_nat k) `mod` Z.of_nat (length (frames s))) s).
Proof.
  intros [Hlen Hcur] Hset Hplaying. induction k as [|k IH].
  - simpl. rewrite <- (atRest_settled s Hset) at 1.
    apply State_ext; simpl; try done; rewrite Z.add_0_r, Z.mod_small by done; done.
  - change (Nat.iter (S k) (dispatch timerTick) s)
      with (dispatch timerTick (Nat.iter k (dispatch timerTick) s)).
    rewrite IH.
    set (a := (currentFrame s + Z.of_nat k) `mod` Z.of_nat (length (frames s))).
    assert (0 ≤ a < Z.of_nat (length (frames s))) as Ha
      by (apply Z.mod_pos_bound; lia).
    set (t := atRest (setCurrentFrame (λ _, a) s)).
    assert (timerTick t
            = setCurrentFrame (λ prev, JsArray.rem (prev + 1) (Z.of_nat (length (frames s)))) t)
      as Htick.
    { unfold timerTick, t. simpl. by rewrite Hplaying. }
    rewrite dispatch_atRest; try (by rewrite Htick); [|apply atRest_is_settled].
    rewrite Htick. apply State_ext; simpl; try done.
    + rewrite rem_wraps by lia. unfold a.
      rewrite Z.add_mod_idemp_l by lia. f_equal. lia.
    + apply Context2D_ext; simpl; try done.
      rewrite rem_wraps by lia. unfold a.
      rewrite Z.add_mod_idemp_l by lia. do 3 f_equal. lia.
Qed.

(** X8. While playing with nothing pending, the canvas follows the
    cursor: after [k] ticks it shows the frame at [(c0 + k) mod N]
    (cleared for a blank one), and after any whole number of loops the
    state is exactly the one playback started from. *)
Theorem playback_shows_each_frame_in_turn (s : State) (k m : nat) :
  storeInvariant s → settled s → playing s = true →
  let N := Z.of_nat (length (frames s)) in
  let c0 := currentFrame s in
  pixels (ctx (Nat.iter k (dispatch timerTick) s))
  = shown (read s ((c0 + Z.of_nat k) `mod` N))
  ∧ Nat.iter (m * length (frames s)) (dispatch timerTick) s = s.
Proof.
  intros Hinv Hset Hplaying N c0. pose proof Hinv as [Hlen Hcur].
  rewrite !ticks_atRest by done. split; [done|].
  transitivity (atRest s); [|by apply atRest_settled].
  assert ((currentFrame s + Z.of_nat (m * length (frames s)))
            `mod` Z.of_nat (length (frames s)) = currentFrame s) as Hloop.
  { rewrite Nat2Z.inj_mul, Z.mod_add by lia. by apply Z.mod_small. }
  apply State_ext; simpl; rewrite ?Hloop; done.
Qed.

(** X9. Changing the number of frames while playing does not stop
    playback: the playback effect registers a new interval over the new
    length, so after add-frame the ticks wrap modulo [N + 1] from the new
    cursor, and after delete-frame (with at least two frames) modulo
    [N - 1]. *)
Theorem playback_follows_the_frame_count (s : State) (k : nat) :
  storeInvariant s → settled s → playing s = true →
  let N := Z.of_nat (length (frames s)) in
  let c0 := currentFrame s in
  let added := react s ClickAddFrame in
  let removed := react s ClickDeleteFrame in
  (playing added = true ∧ timer added = Some (N + 1)
   ∧ currentFrame (Nat.iter k (dispatch timerTick) added)
     = (c0 + 1 + Z.of_nat k) `mod` (N + 1))
  ∧ ((2 ≤ length (frames s))%nat →
     playing removed = true ∧ timer removed = Some (N - 1)
     ∧ currentFrame (Nat.iter k (dispatch timerTick) removed)
       = (Z.max 0 (c0 - 1) + Z.of_nat k) `mod` (N - 1)).
Proof.
  intros Hinv Hset Hplaying N c0 added removed.
  pose proof Hinv as [Hlen Hcur].
  assert (∀ ev (t := react s ev),
            playing (react s ev) = true →
            timer t = Some (Z.of_nat (length (frames t)))
            ∧ currentFrame (Nat.iter k (dispatch timerTick) t)
              = (currentFrame t + Z.of_nat k) `mod` Z.of_nat (length (frames t)))
    as Hafter.
  { intros ev t Hpl.
    destruct (react_keeps_settled s ev Hinv Hset) as (Hinv' & Hset').
    pose proof Hset' as (_ & _ & Htm). fold t in Htm, Hinv'.
    unfold t in Htm at 2. rewrite Hpl in Htm. split; [done|].
    by destruct (ticks_wrap_around t k Hinv' Htm) as (-> & _). }
  assert (∀ h : State → State, playing (dispatch h s) = playing (h s)) as Hdispatch.
  { intros h. unfold dispatch.
    by destruct (settle_cells renderRounds s (h s)) as (_ & _ & _ & -> & _). }
  split.
  - assert (playing added = true) as Hpl.
    { unfold added. simpl. by rewrite Hdispatch. }
    destruct (Hafter ClickAddFrame Hpl) as (Htm & Hck). fold added in Htm, Hck.
    destruct (dispatch_addFrame s) as (Hf & Hc & _).
    change (dispatch addFrame s) with added in Hf, Hc.
    assert (Z.of_nat (length (frames added)) = N + 1) as HN.
    { rewrite Hf, addFrame_frames by done.
      rewrite length_app, length_take_le, length_cons, length_drop; lia. }
    rewrite HN in Htm, Hck. repeat split; [done..|].
    rewrite Hck. by replace (currentFrame added) with (c0 + 1) by (symmetry; exact Hc).
  - intros Hmany.
    assert (playing removed = true) as Hpl.
    { unfold removed. simpl. rewrite Hdispatch.
      by destruct (deleteFrame_cells s) as (_ & _ & -> & _). }
    destruct (Hafter ClickDeleteFrame Hpl) as (Htm & Hck). fold removed in Htm, Hck.
    destruct (dispatch_deleteFrame s) as (Hf & Hc).
    change (dispatch deleteFrame s) with removed in Hf, Hc.
    destruct (deleteFrame_frames s Hinv Hmany) as (Hf' & Hc' & _).
    assert (Z.of_nat (length (frames removed)) = N - 1) as HN.
    { rewrite Hf, Hf', length_delete; [lia|]. apply lookup_lt_is_Some. lia. }
    rewrite HN in Htm, Hck. repeat split; [done..|].
    rewrite Hck.
    by replace (currentFrame removed) with (Z.max 0 (c0 - 1))
      by (symmetry; etrans; [exact Hc|exact Hc']).
Qed.

(** ** Pointer-moves between two renders *)

Lemma dispatchMoves_single (rect : DOMRect) (e : PointerEvent) (s : State) :
  dispatchMoves [(rect, e)] s = react s (PointerMove rect e).
Proof. done. Qed.

(** The handlers of one batch, all created by the render [s], run one
    after the other on the running state [w]. *)
Lemma batch_of_moves (s : State) (moves : list (DOMRect * PointerEvent)) (w : State) :
  drawing s = true → tool s = "brush" →
  let pts := (λ m, (localX m.1 m.2, localY m.1 m.2)) <$> moves in
  let r := foldl (λ w m, handlePointerMoveIn s m.1 m.2 w) w moves in
  tool r = tool w ∧ color r = color w ∧ frames r = frames w
  ∧ framesRef r = framesRef w ∧ currentFrame r = currentFrame w
  ∧ playing r = playing w ∧ drawing r = drawing w ∧ timer r = timer w
  ∧ pixels (ctx r) = fan (color s) (lastPt s) pts (pixels (ctx w))
  ∧ (moves ≠ [] → dirty r = true ∧ last pts = Some (lastPt r)).
Proof.
  intros Hdrawing Htool. revert w.
  induction moves as [|[rect e] moves IH]; intros w pts r.
  { by repeat split. }
  set (pt := (localX rect e, localY rect e)).
  assert (handlePointerMoveIn s rect e w
          = setDirty true
              (setLastPt pt
                 (withCtx (λ c, stroke (lastPt s) pt
                                  (setLineWidth 2 (setStrokeStyle (color s) c))) w)))
    as Hw1.
  { unfold handlePointerMoveIn. by rewrite Hdrawing, Htool. }
  destruct (IH (handlePointerMoveIn s rect e w))
    as (Ht & Hco & Hf & Href & Hc & Hpl & Hdr & Htm & Hpx & Hlast).
  assert (tool (handlePointerMoveIn s rect e w) = tool w
          ∧ color (handlePointerMoveIn s rect e w) = color w
          ∧ frames (handlePointerMoveIn s rect e w) = frames w
          ∧ framesRef (handlePointerMoveIn s rect e w) = framesRef w
          ∧ currentFrame (handlePointerMoveIn s rect e w) = currentFrame w
          ∧ playing (handlePointerMoveIn s rect e w) = playing w
          ∧ drawing (handlePointerMoveIn s rect e w) = drawing w
          ∧ timer (handlePointerMoveIn s rect e w) = timer w
          ∧ pixels (ctx (handlePointerMoveIn s rect e w))
            = strokeLine (color s) 2 (lastPt s) pt (pixels (ctx w))
          ∧ dirty (handlePointerMoveIn s rect e w) = true
          ∧ lastPt (handlePointerMoveIn s rect e w) = pt)
    as (Ht1 & Hco1 & Hf1 & Href1 & Hc1 & Hpl1 & Hdr1 & Htm1 & Hpx1 & Hd1 & Hl1)
    by (by rewrite Hw1).
  subst r.
  change (foldl (λ w m, handlePointerMoveIn s m.1 m.2 w) w ((rect, e) :: moves))
    with (foldl (λ w m, handlePointerMoveIn s m.1 m.2 w)
            (handlePointerMoveIn s rect e w) moves).
  split; [congruence|]. split; [congruence|]. split; [congruence|].
  split; [congruence|]. split; [congruence|]. split; [congruence|].
  split; [congruence|]. split; [congruence|].
  split; [by rewrite Hpx, Hpx1|]. intros _.
  destruct moves as [|m moves].
  - split; [exact Hd1|].
    change (last [pt] = Some (lastPt (handlePointerMoveIn s rect e w))).
    by rewrite Hl1.
  - destruct Hlast as (Hd & Hl); [done|]. split; [exact Hd|].
    unfold pts. rewrite fmap_cons, last_cons. by rewrite Hl.
Qed.

(** The renders after a handler that drew on the canvas and set [dirty]
    without touching the frames or the cursor: the canvas is committed at
    the cursor and shown again. *)
Lemma settle_commits_canvas (s r : State) :
  storeInvariant s → dirty s = false → dirty r = true →
  frames r = frames s → framesRef r = framesRef s →
  currentFrame r = currentFrame s → playing r = playing s →
  let s' := settle renderRounds s r in
  tool s' = tool r ∧ color s' = color r
  ∧ frames s' = commitAt (currentFrame s) (pixels (ctx r)) (frames s)
  ∧ currentFrame s' = currentFrame s ∧ playing s' = playing r
  ∧ drawing s' = drawing r ∧ lastPt s' = lastPt r ∧ dirty s' = false
  ∧ ctx s' = ctx r ∧ timer s' = timer r.
Proof.
  intros [Hlen Hcur] Hclean Hdirty Hfr Hrefr Hcr Hplr s'.
  unfold s'. rewrite settle_saving by done.
  destruct (runEffects_saving s r Hclean Hdirty)
    as (Ht & Hco & Hf & Href & Hc & Hpl & Hdr & Hl & Hd & Hss & Hlw & Hpx & Htm).
  set (w := runEffects s r) in *.
  assert (loadDepsChanged s r = false) as Hload.
  { unfold loadDepsChanged. by rewrite Hcr, Hrefr, Z.eqb_refl, Nat.eqb_refl. }
  assert (playbackDepsChanged s r = false) as Hplay.
  { unfold playbackDepsChanged. by rewrite Hplr, Hfr, eqb_reflx, Nat.eqb_refl. }
  rewrite Hload in Hf, Hpx. rewrite Hplay in Htm.
  destruct (runEffects_quiet r w)
    as (Ht' & Hco' & Hf' & _ & Hc' & Hpl' & Hdr' & Hl' & Hd' & Hss' & Hlw' & Hpx' & Htm');
    [congruence|].
  assert (loadDepsChanged r w = true) as Hload'.
  { unfold loadDepsChanged. rewrite Href.
    destruct (Nat.eqb_spec (framesRef r) (S (framesRef r))); [lia|].
    by rewrite orb_true_r. }
  assert (playbackDepsChanged r w = false) as Hplay'.
  { unfold playbackDepsChanged.
    by rewrite Hpl, Hf, length_commitAt, eqb_reflx, Nat.eqb_refl. }
  rewrite Hload' in Hpx'. rewrite Hplay' in Htm'.
  assert (frames w = commitAt (currentFrame s) (pixels (ctx r)) (frames s)) as Hfw
    by (by rewrite Hf, Hcr, Hfr).
  repeat split; try congruence.
  apply Context2D_ext; simpl; [|congruence..].
  rewrite Hpx'. unfold read. rewrite Hfw, Hc, Hcr. by rewrite commitAt_read.
Qed.

(** X4. Pointer-moves that arrive before React renders again all start
    from the last rendered point. On a valid store with no edit pending,
    inside a brush stroke, a batch of one or more pointer-moves handled
    before the next render leaves on the canvas a fan: one segment from the
    last point of that render to each event point, in the current colour
    with line width 2, over what was there. Afterwards the last point is
    the point of the last move, the frame under the cursor is exactly the
    canvas, every other frame reads as before, no edit is pending and the
    cursor has not moved. *)
Theorem batched_moves_draw_a_fan
    (moves : list (DOMRect * PointerEvent)) (s : State) :
  storeInvariant s → dirty s = false → drawing s = true → tool s = "brush" →
  moves ≠ [] →
  let pts := (λ m, (localX m.1 m.2, localY m.1 m.2)) <$> moves in
  let c := currentFrame s in
  let s' := dispatchMoves moves s in
  pixels (ctx s') = fan (color s) (lastPt s) pts (pixels (ctx s))
  ∧ last pts = Some (lastPt s')
  ∧ read s' c = Some (Some (pixels (ctx s')))
  ∧ (∀ i, i ≠ c → read s' i = read s i)
  ∧ dirty s' = false ∧ drawing s' = true ∧ currentFrame s' = c.
Proof.
  intros Hinv Hclean Hdrawing Htool Hmoves pts c s'.
  destruct (batch_of_moves s moves s Hdrawing Htool)
    as (_ & _ & Hf & Href & Hc & Hpl & Hdr & _ & Hpx & Hlast).
  destruct (Hlast Hmoves) as (Hd & Hl).
  set (r := foldl (λ w m, handlePointerMoveIn s m.1 m.2 w) s moves) in *.
  destruct (settle_commits_canvas s r Hinv Hclean Hd Hf Href Hc Hpl)
    as (_ & _ & Hf' & Hc' & _ & Hdr' & Hl' & Hd' & Hctx & _).
  change (settle renderRounds s r) with s' in Hf', Hc', Hdr', Hl', Hd', Hctx.
  destruct Hinv as [Hlen Hcur].
  unfold read. rewrite Hf', Hctx, Hl'.
  split; [exact Hpx|]. split; [exact Hl|].
  split; [by apply commitAt_read|].
  split; [intros i Hi; by apply commitAt_elsewhere|].
  split; [exact Hd'|]. split; [by rewrite Hdr', Hdr|exact Hc'].
Qed.

(** ** The timeline and the buttons *)

Lemma lookup_timeline (s : State) (i : nat) :
  timeline s !! i
  = (λ img,
       mkTimelineCell
         (if Z.of_nat i =? currentFrame s then "2px solid #24f" else "1px solid #ccc")
         (match img with Some _ => "#eee" | None => "#fafaff" end)
         ("Frame " +:+ pretty (i + 1)%nat)
         img) <$> frames s !! i.
Proof. unfold timeline. apply list_lookup_imap. Qed.

(** X12. On a valid store the timeline has one cell per frame, titled
    with the frame's 1-based position, and exactly one cell carries the
    highlighted border: the cell at the cursor. *)
Theorem timeline_highlights_the_cursor_frame (s : State) :
  storeInvariant s →
  length (timeline s) = length (frames s)
  ∧ (∃ cell, timeline s !! Z.to_nat (currentFrame s) = Some cell
             ∧ cellBorder cell = "2px solid #24f")
  ∧ (∀ i cell, timeline s !! i = Some cell →
       cellTitle cell = "Frame " +:+ pretty (i + 1)%nat
       ∧ (cellBorder cell = "2px solid #24f" → Z.of_nat i = currentFrame s)).
Proof.
  intros [Hlen Hcur]. split; [apply length_imap|]. split.
  - destruct (lookup_lt_is_Some_2 (frames s) (Z.to_nat (currentFrame s)))
      as [img Himg]; [lia|].
    eexists. rewrite lookup_timeline. unfold Frame in *. rewrite Himg.
    simpl. split; [done|].
    destruct (Z.eqb_spec (Z.of_nat (Z.to_nat (currentFrame s))) (currentFrame s));
      [done|lia].
  - intros i cell. rewrite lookup_timeline.
    intros (img & _ & ->)%fmap_Some. simpl. split; [done|].
    by destruct (Z.eqb_spec (Z.of_nat i) (currentFrame s)).
Qed.

(** X13. The timeline and the export agree on which frames have content:
    the thumbnail of cell [i] is drawn from image [img] exactly when the
    archive holds [frame{i+1}.png] with the pixels of [img]; and a cell
    has the filled background exactly when its thumbnail is drawn. *)
Theorem thumbnails_match_exported_files (s : State) :
  (∀ i img,
     (∃ cell, timeline s !! i = Some cell ∧ cellThumbnail cell = Some img)
     ↔ (frameName i, offscreenPng img) ∈ archive (handleExport s))
  ∧ (∀ i cell, timeline s !! i = Some cell →
       (cellBackground cell = "#eee" ↔ is_Some (cellThumbnail cell))).
Proof.
  split.
  - intros i img. simpl.
    rewrite exportFrom_imagesByPosition, elem_of_imagesByPosition.
    rewrite lookup_timeline. unfold Frame in *. split.
    + intros (cell & Hcell & Hthumb).
      apply fmap_Some in Hcell as (f & Hi & ->). simpl in Hthumb. subst f.
      by exists i, img.
    + intros (j & img' & Hj & Hname & Hpng).
      apply frameName_inj in Hname as ->. injection Hpng as ->.
      eexists. split; [apply fmap_Some; eexists; split; [exact Hj|done]|done].
  - intros i cell. rewrite lookup_timeline.
    intros ([img|] & _ & ->)%fmap_Some; simpl.
    + split; [by eexists|done].
    + split; [done|by intros [? ?]].
Qed.

(** X14. The delete button is disabled exactly when delete-frame would do
    nothing: on a valid store, [frames.length < 2] holds if and only if
    the delete-frame event leaves the state as it is. *)
Theorem delete_button_disabled_iff_noop (s : State) :
  storeInvariant s →
  deleteDisabled s = true ↔ react s ClickDeleteFrame = s.
Proof.
  intros Hinv. pose proof Hinv as [Hlen Hcur]. unfold deleteDisabled. simpl. split.
  - intros Hlt%Z.ltb_lt. apply dispatch_unchanged, deleteFrame_single. lia.
  - intros Hsame. apply Z.ltb_lt.
    destruct (decide (2 ≤ length (frames s))%nat) as [Hmany|]; [|lia].
    destruct (dispatch_deleteFrame s) as (Hf & _).
    destruct (deleteFrame_frames s Hinv Hmany) as (Hf' & _).
    rewrite Hsame, Hf' in Hf. apply (f_equal length) in Hf.
    rewrite length_delete in Hf; [lia|]. apply lookup_lt_is_Some. lia.
Qed.

(** X20. After delete-frame the canvas shows the neighbour: on a valid
    store of at least two frames with nothing pending, the live surface
    becomes the content of the frame that was before the deleted one, or,
    when the first frame was deleted, of the frame that was second. *)
Theorem deleteFrame_shows_the_neighbour (s : State) :
  storeInvariant s → settled s → (2 ≤ length (frames s))%nat →
  let c := currentFrame s in
  pixels (ctx (react s ClickDeleteFrame))
  = shown (read s (if c =? 0 then 1 else c - 1)).
Proof.
  intros Hinv Hset Hmany c. pose proof Hinv as [Hlen Hcur].
  destruct (react_keeps_settled s ClickDeleteFrame Hinv Hset)
    as (_ & _ & Hpx & _).
  rewrite Hpx. unfold read. simpl.
  destruct (dispatch_deleteFrame s) as (-> & ->).
  destruct (deleteFrame_frames s Hinv Hmany) as (-> & -> & _). fold c.
  f_equal. destruct (Z.eqb_spec c 0) as [Hz|Hnz].
  - rewrite Hz. simpl. rewrite !index_inside by lia.
    by rewrite list_lookup_delete_ge by lia.
  - replace (Z.max 0 (c - 1)) with (c - 1) by lia.
    rewrite !index_inside by lia. apply list_lookup_delete_lt. lia.
Qed.

(** ** Export, further *)

(** X15. Save-frame followed by export: on a valid store, the archive
    holds the file named after the cursor position, [frame{c+1}.png], and
    it decodes to exactly the pixels of the live canvas. *)
Theorem saved_frame_is_exported (s : State) :
  storeInvariant s →
  (frameName (Z.to_nat (currentFrame s)), offscreenPng (pixels (ctx s)))
  ∈ archive (handleExport (react s ClickSaveFrame)).
Proof.
  intros Hinv. pose proof Hinv as [Hlen Hcur]. simpl.
  rewrite exportFrom_imagesByPosition, elem_of_imagesByPosition.
  exists (Z.to_nat (currentFrame s)), (pixels (ctx s)).
  split; [|done].
  destruct (dispatch_copyFrame s Hinv) as (_ & _ & -> & _).
  rewrite <- index_inside by lia. by apply commitAt_read.
Qed.

(** X18. No two files of the archive share a name, so [zip.file] never
    overwrites an image with another. *)
Theorem export_names_are_distinct (s : State) :
  NoDup (archive (handleExport s)).*1.
Proof.
  simpl. rewrite exportFrom_imagesByPosition.
  eapply sublist_NoDup; [|apply (images_in_order 0)].
  assert (Inj (=) (=) frameName) as Hinj by (intros i j; apply frameName_inj).
  apply NoDup_fmap_2; [done|]. apply NoDup_seq.
Qed.

(** X19. The archive is empty exactly when every frame is blank; in
    particular a frame saved from a cleared canvas is not blank and is
    exported. *)
Theorem export_is_empty_iff_all_blank (s : State) :
  archive (handleExport s) = [] ↔ Forall (λ f, f = None) (frames s).
Proof.
  simpl. rewrite exportFrom_imagesByPosition, Forall_lookup. split.
  - intros Hempty i [img|] Hi; [|done].
    assert ((frameName i, offscreenPng img) ∈ imagesByPosition (frames s)) as Hin.
    { apply elem_of_imagesByPosition. by exists i, img. }
    rewrite Hempty in Hin. by apply elem_of_nil in Hin.
  - intros Hblank. destruct (imagesByPosition (frames s)) as [|[name png] rest] eqn:Himg;
      [done|].
    assert ((name, png) ∈ imagesByPosition (frames s)) as Hin by (rewrite Himg; left).
    apply elem_of_imagesByPosition in Hin as (i & img & Hi & _).
    by specialize (Hblank i _ Hi).
Qed.

End Extensions.

(** ** The model on concrete inputs *)

Section Concrete.
#[local] Existing Instance traceCanvas.

Example twoFrames_store :
  frames twoFrames = [Some diagonal; None] ∧ currentFrame twoFrames = 1.
Proof. by vm_compute. Qed.

Example threeFrames_store :
  frames threeFrames
  = [Some diagonal; Some [("#222222", 2, (5, 5), (7, 9))]; None]
  ∧ currentFrame threeFrames = 1.
Proof. by vm_compute. Qed.

(** [Math.floor] of the offset from the canvas rectangle. *)
Example localX_floors :
  localX (mkDOMRect 0.5 0) (pointerAt 11.25 0) = 10
  ∧ localX (mkDOMRect 8 0) (pointerAt 7.5 0) = -1
  ∧ localX (mkDOMRect 0 0) (pointerAt 600 0) = 600
  ∧ localX (mkDOMRect 0 0) (pointerAt (-5) 0) = -5.
Proof. by vm_compute. Qed.

(** The subtraction is the rounded one of doubles: the doubles nearest to
    100.1 and 0.1 differ by exactly 100, although 100.1 - 0.1 over their
    exact values lies just below 100. *)
Example localX_rounds_the_difference :
  localX (mkDOMRect 0x1.999999999999ap-4 0) (pointerAt 0x1.9066666666666p+6 0) = 100.
Proof. by vm_compute. Qed.

(** Three ticks on three frames bring the cursor back. *)
Example playingThree_cycle :
  currentFrame <$> [run playingThree [IntervalTick];
                    run playingThree [IntervalTick; IntervalTick];
                    run playingThree [IntervalTick; IntervalTick; IntervalTick]]
  = [2; 0; 1].
Proof. by vm_compute. Qed.

(** Without a mounted canvas the handlers throw at the dereference of
    [canvasRef.current]; pointer-down has set [drawing] by then. *)
Example unmounted_canvas_throws :
  handlePointerDownOn None (pointerAt 10 10) initialState
  = Throws "TypeError" (setDrawing true initialState)
  ∧ handlePointerMoveOn None (pointerAt 30 40) pressed = Throws "TypeError" pressed.
Proof. by vm_compute. Qed.

(** The scenario of the spec: the archive holds frame 1 only. *)
Example scenario_export :
  archive (handleExport twoFrames)
  = [("frame1.png", mkPngFile 520 390 diagonal)].
Proof. by vm_compute. Qed.

(** Names follow positions, not the count of exported files. *)
Example sparse_export :
  (archive (handleExport sparse)).*1 = ["frame2.png"; "frame4.png"].
Proof. by vm_compute. Qed.

(** C2 on [threeFrames]: the blank frame lands at position 2, the frame
    that was there is read at 3. *)
Lemma addFrame_inserts_blank_after_cursor_witness :
  storeInvariant threeFrames
  ∧ currentFrame (dispatch addFrame threeFrames) = 2
  ∧ read (dispatch addFrame threeFrames) 2 = Some None
  ∧ read (dispatch addFrame threeFrames) 3 = read threeFrames 2.
Proof.
  assert (storeInvariant threeFrames) as Hinv.
  { unfold storeInvariant. vm_compute. split; [lia|]. by split. }
  split; [exact Hinv|].
  destruct (addFrame_inserts_blank_after_cursor threeFrames Hinv)
    as (Hc & _ & Hblank & _ & Hafter & _).
  split; [exact Hc|]. split; [exact Hblank|].
  apply (Hafter 2). reflexivity.
Defined.

(** C3 on [twoFrames]: the second frame goes, the cursor falls back to 0. *)
Lemma deleteFrame_noop_or_removes_cursor_frame_witness :
  storeInvariant twoFrames
  ∧ frames (dispatch deleteFrame twoFrames) = [Some diagonal]
  ∧ currentFrame (dispatch deleteFrame twoFrames) = 0.
Proof.
  assert (storeInvariant twoFrames) as Hinv.
  { unfold storeInvariant. vm_compute. split; [lia|]. by split. }
  split; [exact Hinv|].
  destruct (deleteFrame_noop_or_removes_cursor_frame twoFrames Hinv)
    as (_ & Hmany & _).
  destruct Hmany as (Hf & _ & Hc); [vm_compute; lia|].
  split; [exact Hf|exact Hc].
Defined.

(** C10 on [threeFrames]: deleting the middle frame keeps the first at 0
    and brings the third down to 1. *)
Lemma deleteFrame_keeps_other_frames_witness :
  storeInvariant threeFrames ∧ (2 ≤ length (frames threeFrames))%nat
  ∧ read (dispatch deleteFrame threeFrames) 0 = read threeFrames 0
  ∧ read (dispatch deleteFrame threeFrames) 1 = read threeFrames 2.
Proof.
  assert (storeInvariant threeFrames) as Hinv.
  { unfold storeInvariant. vm_compute. split; [lia|]. by split. }
  assert (2 ≤ length (frames threeFrames))%nat as Hmany by (vm_compute; lia).
  split; [exact Hinv|]. split; [exact Hmany|].
  destruct (deleteFrame_keeps_other_frames threeFrames Hinv Hmany)
    as (Hbelow & Habove).
  split; [apply (Hbelow 0)|apply (Habove 2)]; reflexivity.
Defined.

(** C4 on [threeFrames]: saving the second frame again reads back the
    stroke it shows, and a second save changes nothing. *)
Lemma commit_round_trip_and_idempotence_witness :
  storeInvariant threeFrames
  ∧ read (dispatch copyFrame threeFrames) 1
    = Some (Some [("#222222", 2, (5, 5), (7, 9))])
  ∧ sameView (dispatch copyFrame (dispatch copyFrame threeFrames))
             (dispatch copyFrame threeFrames).
Proof.
  assert (storeInvariant threeFrames) as Hinv.
  { unfold storeInvariant. vm_compute. split; [lia|]. by split. }
  split; [exact Hinv|].
  destruct (commit_round_trip_and_idempotence threeFrames Hinv)
    as (_ & _ & _ & Hread & _ & Hsame).
  split; [exact Hread|exact Hsame].
Defined.

(** C5 on [playingThree]: from cursor 1, five ticks lead to
    [(1 + 5) mod 3 = 0], and pausing removes the interval. *)
Lemma playback_wraps_until_paused_witness :
  storeInvariant playingThree ∧ settled playingThree
  ∧ playing playingThree = true
  ∧ currentFrame (Nat.iter 5 (dispatch timerTick) playingThree) = 0
  ∧ timer (dispatch togglePlaying (Nat.iter 5 (dispatch timerTick) playingThree))
    = None.
Proof.
  assert (storeInvariant playingThree) as Hinv.
  { unfold storeInvariant. vm_compute. split; [lia|]. by split. }
  assert (settled playingThree) as Hset.
  { unfold settled. vm_compute. by repeat split. }
  assert (playing playingThree = true) as Hplaying by reflexivity.
  split; [exact Hinv|]. split; [exact Hset|]. split; [exact Hplaying|].
  destruct (playback_wraps_until_paused playingThree 5 3 Hinv Hset Hplaying)
    as (Hc & _ & _ & _ & _ & Htm & _).
  split; [exact Hc|exact Htm].
Defined.

(** C7, as the spec states it, fails: a pointer-down and a pointer-move
    at (600, -5) leave that very point as the last point, outside the
    520 by 390 canvas, and the segment is stroked up to it. *)
Lemma pointer_outside_canvas_is_not_clamped :
  let down := react initialState (PointerDown pageOrigin outside) in
  let moved := react (react initialState (PointerDown pageOrigin (pointerAt 10 10)))
                     (PointerMove pageOrigin outside) in
  lastPt down = (600, -5) ∧ ¬ inCanvas (lastPt down)
  ∧ lastPt moved = (600, -5) ∧ ¬ inCanvas (lastPt moved)
  ∧ pixels (ctx moved) = [("#222222", 2, (10, 10), (600, -5))].
Proof.
  vm_compute. repeat split; intros [[_ Hx] _]; discriminate Hx.
Qed.

(** C7 as amended, on [pressed]: a pointer at (600.5, -4.25) is recorded
    as (600, -5), and the handlers return. *)
Lemma pointer_coordinates_recorded_unclamped_witness :
  storeInvariant pressed ∧ dirty pressed = false ∧ tool pressed = "brush"
  ∧ is_finite (clientX (pointerAt 600.5 (-4.25)) - rectLeft pageOrigin) = true
  ∧ is_finite (clientY (pointerAt 600.5 (-4.25)) - rectTop pageOrigin) = true
  ∧ lastPt (react pressed (PointerDown pageOrigin (pointerAt 600.5 (-4.25)))) = (600, -5)
  ∧ lastPt (react pressed (PointerMove pageOrigin (pointerAt 600.5 (-4.25)))) = (600, -5)
  ∧ handlePointerMoveOn (Some pageOrigin) (pointerAt 600.5 (-4.25)) pressed
    = Returns (handlePointerMove pageOrigin (pointerAt 600.5 (-4.25)) pressed).
Proof.
  assert (storeInvariant pressed) as Hinv.
  { unfold storeInvariant. vm_compute. split; [lia|]. by split. }
  assert (dirty pressed = false) as Hclean by reflexivity.
  assert (tool pressed = "brush") as Htool by reflexivity.
  assert (is_finite (clientX (pointerAt 600.5 (-4.25)) - rectLeft pageOrigin) = true)
    as Hx by reflexivity.
  assert (is_finite (clientY (pointerAt 600.5 (-4.25)) - rectTop pageOrigin) = true)
    as Hy by reflexivity.
  split; [exact Hinv|]. split; [exact Hclean|]. split; [exact Htool|].
  split; [exact Hx|]. split; [exact Hy|].
  destruct (pointer_coordinates_recorded_unclamped pageOrigin (pointerAt 600.5 (-4.25))
              pressed Hinv Hclean Htool Hx Hy) as (Hdown & Hmove & _ & Hreturns).
  split; [exact Hdown|].
  destruct Hmove as (Hpt & _); [reflexivity|]. split; [exact Hpt|exact Hreturns].
Defined.

(** C8 on [pending]: the segment drawn on the second frame is on the
    canvas and in no frame; a click on the first thumbnail shows the
    first frame, and the second frame is still read blank. *)
Lemma navigation_discards_uncommitted_pixels_witness :
  (0 < length (frames pending))%nat ∧ Z.of_nat 0 ≠ currentFrame pending
  ∧ currentFrame pressed = currentFrame pending
  ∧ pixels (ctx pending) ≠ shown (read pending (currentFrame pending))
  ∧ pixels (ctx (settle renderRounds pressed (selectFrame 0 pending))) = diagonal
  ∧ read (settle renderRounds pressed (selectFrame 0 pending)) 1 = Some None.
Proof.
  assert (0 < length (frames pending))%nat as Hi by (vm_compute; lia).
  assert (Z.of_nat 0 ≠ currentFrame pending) as Hne by (by vm_compute).
  assert (currentFrame pressed = currentFrame pending) as Hprev by reflexivity.
  assert (pixels (ctx pending) ≠ shown (read pending (currentFrame pending))) as Hlive
    by (by vm_compute).
  split; [exact Hi|]. split; [exact Hne|]. split; [exact Hprev|].
  split; [exact Hlive|].
  destruct (navigation_discards_uncommitted_pixels pressed pending 0
              Hi Hne Hprev Hlive) as (_ & Hpx & Hold & _).
  split; [exact Hpx|exact Hold].
Defined.

(** C9 on [twoFrames] after pointer-up. *)
Lemma pointerMove_outside_stroke_changes_nothing_witness :
  drawing (react twoFrames PointerUp) = false
  ∧ react (react twoFrames PointerUp) (PointerMove pageOrigin (pointerAt 30 40))
    = react twoFrames PointerUp.
Proof.
  split; [reflexivity|].
  apply (pointerMove_outside_stroke_changes_nothing
           pageOrigin (pointerAt 30 40) (react twoFrames PointerUp) twoFrames).
  right. right. right. left. reflexivity.
Defined.

End Concrete.

(** ** The further properties on concrete inputs *)

Section MoreConcrete.
#[local] Existing Instance traceCanvas.

(** X3 on [pressed]: the segment to (30, 40) is on the canvas and in the
    second frame, the first frame is untouched. *)
Lemma pointerMove_commits_the_stroke_witness :
  storeInvariant pressed ∧ dirty pressed = false ∧ drawing pressed = true
  ∧ tool pressed = "brush"
  ∧ read (react pressed (PointerMove pageOrigin (pointerAt 30 40))) 1
    = Some (Some [("#222222", 2, (20, 20), (30, 40))])
  ∧ read (react pressed (PointerMove pageOrigin (pointerAt 30 40))) 0
    = Some (Some diagonal).
Proof.
  assert (storeInvariant pressed) as Hinv.
  { unfold storeInvariant. vm_compute. split; [lia|]. by split. }
  assert (dirty pressed = false) as Hclean by reflexivity.
  assert (drawing pressed = true) as Hdrawing by reflexivity.
  assert (tool pressed = "brush") as Htool by reflexivity.
  split; [exact Hinv|]. split; [exact Hclean|].
  split; [exact Hdrawing|]. split; [exact Htool|].
  destruct (pointerMove_commits_the_stroke pageOrigin (pointerAt 30 40) pressed
              Hinv Hclean Hdrawing Htool) as (Hread & Hother & _).
  split; [exact Hread|]. apply (Hother 0). by vm_compute.
Defined.

(** X4 on [pressed]: two moves before the next render draw two segments
    from the pressed point (20, 20), and the last point is (4, 5). *)
Lemma batched_moves_draw_a_fan_witness :
  storeInvariant pressed ∧ dirty pressed = false ∧ drawing pressed = true
  ∧ tool pressed = "brush"
  ∧ [(pageOrigin, pointerAt 2 3); (pageOrigin, pointerAt 4 5)] ≠ []
  ∧ pixels (ctx (dispatchMoves [(pageOrigin, pointerAt 2 3); (pageOrigin, pointerAt 4 5)]
                               pressed))
    = [("#222222", 2, (20, 20), (2, 3)); ("#222222", 2, (20, 20), (4, 5))]
  ∧ Some (4, 5)
    = Some (lastPt (dispatchMoves [(pageOrigin, pointerAt 2 3); (pageOrigin, pointerAt 4 5)]
                                  pressed)).
Proof.
  assert (storeInvariant pressed) as Hinv.
  { unfold storeInvariant. vm_compute. split; [lia|]. by split. }
  assert (dirty pressed = false) as Hclean by reflexivity.
  assert (drawing pressed = true) as Hdrawing by reflexivity.
  assert (tool pressed = "brush") as Htool by reflexivity.
  assert ([(pageOrigin, pointerAt 2 3); (pageOrigin, pointerAt 4 5)] ≠ []) as Hmoves
    by discriminate.
  split; [exact Hinv|]. split; [exact Hclean|].
  split; [exact Hdrawing|]. split; [exact Htool|]. split; [exact Hmoves|].
  destruct (batched_moves_draw_a_fan
              [(pageOrigin, pointerAt 2 3); (pageOrigin, pointerAt 4 5)] pressed
              Hinv Hclean Hdrawing Htool Hmoves) as (Hpx & Hl & _).
  split; [exact Hpx|exact Hl].
Defined.

(** X5 on [threeFrames]: saving the second frame leaves the first as read
    before and keeps three frames. *)
Lemma copyFrame_changes_cursor_frame_only_witness :
  storeInvariant threeFrames
  ∧ read (react threeFrames ClickSaveFrame) 0 = read threeFrames 0
  ∧ length (frames (react threeFrames ClickSaveFrame)) = 3%nat.
Proof.
  assert (storeInvariant threeFrames) as Hinv.
  { unfold storeInvariant. vm_compute. split; [lia|]. by split. }
  split; [exact Hinv|].
  destruct (copyFrame_changes_cursor_frame_only threeFrames Hinv)
    as (Hother & Hlen & _).
  split; [apply (Hother 0); by vm_compute|exact Hlen].
Defined.

(** X6 on [threeFrames]. *)
Lemma addFrame_then_deleteFrame_restores_witness :
  storeInvariant threeFrames ∧ settled threeFrames
  ∧ sameView (react (react threeFrames ClickAddFrame) ClickDeleteFrame) threeFrames.
Proof.
  assert (storeInvariant threeFrames) as Hinv.
  { unfold storeInvariant. vm_compute. split; [lia|]. by split. }
  assert (settled threeFrames) as Hset.
  { unfold settled. vm_compute. by repeat split. }
  split; [exact Hinv|]. split; [exact Hset|].
  exact (addFrame_then_deleteFrame_restores threeFrames Hinv Hset).
Defined.

(** X7 on [threeFrames]: to the third frame and back to the second. *)
Lemma navigation_there_and_back_witness :
  storeInvariant threeFrames ∧ settled threeFrames
  ∧ (2 < length (frames threeFrames))%nat
  ∧ react (react threeFrames (ClickThumbnail 2)) (ClickThumbnail 1) = threeFrames.
Proof.
  assert (storeInvariant threeFrames) as Hinv.
  { unfold storeInvariant. vm_compute. split; [lia|]. by split. }
  assert (settled threeFrames) as Hset.
  { unfold settled. vm_compute. by repeat split. }
  assert (2 < length (frames threeFrames))%nat as Hi by (vm_compute; lia).
  split; [exact Hinv|]. split; [exact Hset|]. split; [exact Hi|].
  destruct (navigation_there_and_back threeFrames 2 Hinv Hset Hi)
    as (_ & _ & _ & Hback).
  exact Hback.
Defined.

(** X17 on [threeFrames]. *)
Lemma play_then_pause_restores_witness :
  settled threeFrames
  ∧ react (react threeFrames ClickPlayPause) ClickPlayPause = threeFrames.
Proof.
  assert (settled threeFrames) as Hset.
  { unfold settled. vm_compute. by repeat split. }
  split; [exact Hset|]. exact (play_then_pause_restores threeFrames Hset).
Defined.

(** X8 on [playingThree]: after four ticks from cursor 1 the canvas shows
    the frame at [(1 + 4) mod 3 = 2], which is blank; two whole loops give
    back the state. *)
Lemma playback_shows_each_frame_in_turn_witness :
  storeInvariant playingThree ∧ settled playingThree
  ∧ playing playingThree = true
  ∧ pixels (ctx (Nat.iter 4 (dispatch timerTick) playingThree)) = []
  ∧ Nat.iter 6 (dispatch timerTick) playingThree = playingThree.
Proof.
  assert (storeInvariant playingThree) as Hinv.
  { unfold storeInvariant. vm_compute. split; [lia|]. by split. }
  assert (settled playingThree) as Hset.
  { unfold settled. vm_compute. by repeat split. }
  assert (playing playingThree = true) as Hplaying by reflexivity.
  split; [exact Hinv|]. split; [exact Hset|]. split; [exact Hplaying|].
  destruct (playback_shows_each_frame_in_turn playingThree 4 2 Hinv Hset Hplaying)
    as (Hpx & Hloop).
  split; [exact Hpx|exact Hloop].
Defined.

(** X9 on [playingThree]: after add-frame the interval runs over four
    frames and three ticks from the new cursor 2 lead to [(2 + 3) mod 4]. *)
Lemma playback_follows_the_frame_count_witness :
  storeInvariant playingThree ∧ settled playingThree
  ∧ playing playingThree = true
  ∧ timer (react playingThree ClickAddFrame) = Some 4
  ∧ currentFrame (Nat.iter 3 (dispatch timerTick) (react playingThree ClickAddFrame)) = 1.
Proof.
  assert (storeInvariant playingThree) as Hinv.
  { unfold storeInvariant. vm_compute. split; [lia|]. by split. }
  assert (settled playingThree) as Hset.
  { unfold settled. vm_compute. by repeat split. }
  assert (playing playingThree = true) as Hplaying by reflexivity.
  split; [exact Hinv|]. split; [exact Hset|]. split; [exact Hplaying|].
  destruct (playback_follows_the_frame_count playingThree 3 Hinv Hset Hplaying)
    as ((_ & Htm & Hc) & _).
  split; [exact Htm|exact Hc].
Defined.

(** X10 on [playingThree] and a playback tick. *)
Lemma other_events_keep_frames_witness :
  editsStore IntervalTick = false
  ∧ frames (react playingThree IntervalTick) = frames playingThree.
Proof.
  split; [reflexivity|].
  apply (other_events_keep_frames playingThree IntervalTick). reflexivity.
Defined.

(** X11 on [threeFrames] and delete-frame. *)
Lemma frame_count_after_event_witness :
  storeInvariant threeFrames
  ∧ length (frames (react threeFrames ClickDeleteFrame)) = 2%nat.
Proof.
  assert (storeInvariant threeFrames) as Hinv.
  { unfold storeInvariant. vm_compute. split; [lia|]. by split. }
  split; [exact Hinv|].
  exact (frame_count_after_event threeFrames ClickDeleteFrame Hinv).
Defined.

(** X12 on [threeFrames]: three cells, the highlight on the second. *)
Lemma timeline_highlights_the_cursor_frame_witness :
  storeInvariant threeFrames
  ∧ length (timeline threeFrames) = 3%nat
  ∧ ∃ cell, timeline threeFrames !! 1%nat = Some cell
            ∧ cellBorder cell = "2px solid #24f".
Proof.
  assert (storeInvariant threeFrames) as Hinv.
  { unfold storeInvariant. vm_compute. split; [lia|]. by split. }
  split; [exact Hinv|].
  destruct (timeline_highlights_the_cursor_frame threeFrames Hinv)
    as (Hlen & Hcell & _).
  split; [exact Hlen|exact Hcell].
Defined.

(** X14 on the initial state: one frame, button disabled, no effect. *)
Lemma delete_button_disabled_iff_noop_witness :
  storeInvariant initialState
  ∧ react initialState ClickDeleteFrame = initialState.
Proof.
  assert (storeInvariant initialState) as Hinv.
  { unfold storeInvariant. vm_compute. split; [lia|]. by split. }
  split; [exact Hinv|].
  apply (delete_button_disabled_iff_noop initialState Hinv). reflexivity.
Defined.

(** X15 on [threeFrames]: the second file holds the segment shown. *)
Lemma saved_frame_is_exported_witness :
  storeInvariant threeFrames
  ∧ ("frame2.png", mkPngFile 520 390 [("#222222", 2, (5, 5), (7, 9))])
    ∈ archive (handleExport (react threeFrames ClickSaveFrame)).
Proof.
  assert (storeInvariant threeFrames) as Hinv.
  { unfold storeInvariant. vm_compute. split; [lia|]. by split. }
  split; [exact Hinv|].
  exact (saved_frame_is_exported threeFrames Hinv).
Defined.

(** X20 on [threeFrames]: deleting the second frame shows the first. *)
Lemma deleteFrame_shows_the_neighbour_witness :
  storeInvariant threeFrames ∧ settled threeFrames
  ∧ (2 ≤ length (frames threeFrames))%nat
  ∧ pixels (ctx (react threeFrames ClickDeleteFrame)) = diagonal.
Proof.
  assert (storeInvariant threeFrames) as Hinv.
  { unfold storeInvariant. vm_compute. split; [lia|]. by split. }
  assert (settled threeFrames) as Hset.
  { unfold settled. vm_compute. by repeat split. }
  assert (2 ≤ length (frames threeFrames))%nat as Hmany by (vm_compute; lia).
  split; [exact Hinv|]. split; [exact Hset|]. split; [exact Hmany|].
  exact (deleteFrame_shows_the_neighbour threeFrames Hinv Hset Hmany).
Defined.

End MoreConcrete.
